(** * The search widget of [src/App.tsx]: state, handlers and event loop

    The component [App] keeps seven pieces of React state, one debounce
    timer owned by the effect on [query], and two kinds of outstanding HTTP
    requests (user search and avatar thumbnails).  The handlers are embedded
    as functions on an explicit state; what the browser does between two
    handler runs (time passing, a timer firing, a promise settling) is an
    explicit environment step. *)

From Stdlib Require Import String Ascii DecimalString.
From Stdlib Require DecimalPos DecimalZ.
From stdpp Require Import base option list gmap.

Local Open Scope N_scope.

(** ** JavaScript strings

    A JS string is a sequence of UTF-16 code units; [length] counts code
    units, as [query.length] does. *)

Abbreviation jsstring := (list N).

(** Source-text literals (all of them ASCII in this program). *)
Definition lit (s : string) : jsstring :=
  map N_of_ascii (list_ascii_of_string s).

(** Template-literal and [join] conversion of a number to a string, for
    the integers the program prints (HTTP status codes and user ids): plain
    decimal digits, as JS prints every integer of magnitude below 10^21. *)
Definition N_toString (n : N) : jsstring :=
  lit (NilZero.string_of_uint (N.to_uint n)).

Definition Z_toString (z : Z) : jsstring :=
  lit (NilZero.string_of_int (Z.to_int z)).

(** [Array.prototype.join]. *)
Fixpoint join (sep : jsstring) (l : list jsstring) : jsstring :=
  match l with
  | [] => []
  | [x] => x
  | x :: rest => x ++ sep ++ join sep rest
  end.

(** ** Completions

    Values thrown in this program are either [Error] objects, of which only
    the message is read, or something else ([error instanceof Error] at
    App.tsx:99 separates the two). *)

Inductive thrown :=
| ErrorObj (message : jsstring)
| NonError.

Inductive completion (A : Type) :=
| Normal (a : A)
| Throw (e : thrown).
Arguments Normal {A} a.
Arguments Throw {A} e.

(** ** [encodeURIComponent] (ECMA-262, Encode with the unreserved set) *)

Definition between (lo hi c : N) : bool := (lo <=? c) && (c <=? hi).

(** uriUnreserved: letters, digits and the marks [- _ . ! ~ * ' ( )]. *)
Definition uriUnreserved (c : N) : bool :=
  between 65 90 c || between 97 122 c || between 48 57 c
  || bool_decide (c ∈ lit "-_.!~*'()").

Definition isLeadingSurrogate (c : N) : bool := between 0xD800 0xDBFF c.
Definition isTrailingSurrogate (c : N) : bool := between 0xDC00 0xDFFF c.

Definition UTF16SurrogatePairToCodePoint (lead trail : N) : N :=
  (lead - 0xD800) * 0x400 + (trail - 0xDC00) + 0x10000.

(** The UTF-8 octets of a code point. *)
Definition utf8 (cp : N) : list N :=
  if cp <? 0x80 then [cp]
  else if cp <? 0x800 then
    [N.lor 0xC0 (N.shiftr cp 6); N.lor 0x80 (N.land cp 0x3F)]
  else if cp <? 0x10000 then
    [N.lor 0xE0 (N.shiftr cp 12);
     N.lor 0x80 (N.land (N.shiftr cp 6) 0x3F);
     N.lor 0x80 (N.land cp 0x3F)]
  else
    [N.lor 0xF0 (N.shiftr cp 18);
     N.lor 0x80 (N.land (N.shiftr cp 12) 0x3F);
     N.lor 0x80 (N.land (N.shiftr cp 6) 0x3F);
     N.lor 0x80 (N.land cp 0x3F)].

Definition hexDigit (d : N) : N :=
  if d <? 10 then 48 + d else 55 + d.

(** One octet as [%XX], upper-case hexadecimal. *)
Definition percent (octet : N) : jsstring :=
  [37; hexDigit (octet / 16); hexDigit (octet mod 16)].

Definition escape (cp : N) : jsstring :=
  concat (map percent (utf8 cp)).

(** The message of the [URIError]; the text is the engine's (V8's here),
    nothing below depends on it. *)
Definition URIError : thrown := ErrorObj (lit "URI malformed").

Definition prepend {A} (x : list A) (r : completion (list A))
  : completion (list A) :=
  match r with
  | Normal s => Normal (x ++ s)
  | Throw e => Throw e
  end.

Fixpoint encodeURIComponent (s : jsstring) : completion jsstring :=
  match s with
  | [] => Normal []
  | c :: rest =>
    if uriUnreserved c then prepend [c] (encodeURIComponent rest)
    else if isLeadingSurrogate c then
      match rest with
      | d :: rest' =>
        if isTrailingSurrogate d
        then prepend (escape (UTF16SurrogatePairToCodePoint c d))
                     (encodeURIComponent rest')
        else Throw URIError
      | [] => Throw URIError
      end
    else if isTrailingSurrogate c then Throw URIError
    else prepend (escape c) (encodeURIComponent rest)
  end.

(** ** Data model (App.tsx:5-23) *)

Module RobloxUser.
Record t := mk {
  previousUsernames : list jsstring;
  hasVerifiedBadge : bool;
  id : Z;
  name : jsstring;
  displayName : jsstring }.
End RobloxUser.

(** [data] is read as [data.data || []] and [data.data?.length], so the
    field may be missing. *)
Module SearchResponse.
Record t := mk { data : option (list RobloxUser.t) }.
End SearchResponse.

Module Thumbnail.
Record t := mk {
  targetId : Z;
  state : jsstring;
  imageUrl : jsstring }.
End Thumbnail.

Module ThumbnailResponse.
Record t := mk { data : option (list Thumbnail.t) }.
End ThumbnailResponse.

(** ** The component state (App.tsx:26-32) *)

Record AppState := mkApp {
  query : jsstring;
  users : list RobloxUser.t;
  isLoading : bool;
  error : option jsstring;
  showDropdown : bool;
  selectedUser : option RobloxUser.t;
  avatarUrls : gmap Z jsstring }.

Definition setQuery v s :=
  mkApp v (users s) (isLoading s) (error s) (showDropdown s) (selectedUser s) (avatarUrls s).
Definition setUsers v s :=
  mkApp (query s) v (isLoading s) (error s) (showDropdown s) (selectedUser s) (avatarUrls s).
Definition setIsLoading v s :=
  mkApp (query s) (users s) v (error s) (showDropdown s) (selectedUser s) (avatarUrls s).
Definition setError v s :=
  mkApp (query s) (users s) (isLoading s) v (showDropdown s) (selectedUser s) (avatarUrls s).
Definition setShowDropdown v s :=
  mkApp (query s) (users s) (isLoading s) (error s) v (selectedUser s) (avatarUrls s).
Definition setSelectedUser v s :=
  mkApp (query s) (users s) (isLoading s) (error s) (showDropdown s) v (avatarUrls s).
(** [setAvatarUrls] is only called with an updater function (App.tsx:55). *)
Definition setAvatarUrls (f : gmap Z jsstring -> gmap Z jsstring) s :=
  mkApp (query s) (users s) (isLoading s) (error s) (showDropdown s) (selectedUser s)
        (f (avatarUrls s)).

Definition initialState : AppState :=
  mkApp [] [] false None false None ∅.

(** ** The environment: clock, debounce timer, network *)

Record Request := mkRequest {
  url : jsstring;
  headers : list (jsstring * jsstring) }.

(** What [response.json()] gives: a rejection, or a parsed body, taken at
    the type the program declares for it. *)
Inductive body (A : Type) :=
| JsonRejects (e : thrown)
| Json (a : A).
Arguments JsonRejects {A} e.
Arguments Json {A} a.

(** How the promise of [fetch] settles. *)
Inductive settled (A : Type) :=
| Rejected (e : thrown)
| Fulfilled (status : N) (b : body A).
Arguments Rejected {A} e.
Arguments Fulfilled {A} status b.

(** [response.ok]. *)
Definition ok (status : N) : bool := between 200 299 status.

(** [debounceTimeout] holds the deadline of the live timer and the [query]
    its [searchUsers] closure captured.  [sent] lists every request issued,
    oldest first; a request is named by its position there.
    [searchPending] and [avatarPending] are the requests whose [await] has
    not resumed yet. *)
Record World := mkWorld {
  app : AppState;
  now : N;
  debounceTimeout : option (N * jsstring);
  sent : list Request;
  searchPending : list nat;
  avatarPending : list nat }.

Definition update (f : AppState -> AppState) (w : World) : World :=
  mkWorld (f (app w)) (now w) (debounceTimeout w) (sent w)
          (searchPending w) (avatarPending w).

Definition setTimer (t : option (N * jsstring)) (w : World) : World :=
  mkWorld (app w) (now w) t (sent w) (searchPending w) (avatarPending w).

Definition setNow (t : N) (w : World) : World :=
  mkWorld (app w) t (debounceTimeout w) (sent w) (searchPending w) (avatarPending w).

Definition fetchSearch (r : Request) (w : World) : World :=
  mkWorld (app w) (now w) (debounceTimeout w) (sent w ++ [r])
          (searchPending w ++ [length (sent w)]) (avatarPending w).

Definition fetchAvatar (r : Request) (w : World) : World :=
  mkWorld (app w) (now w) (debounceTimeout w) (sent w ++ [r])
          (searchPending w) (avatarPending w ++ [length (sent w)]).

Definition removeSearch (rid : nat) (w : World) : World :=
  mkWorld (app w) (now w) (debounceTimeout w) (sent w)
          (filter (λ n, n ≠ rid) (searchPending w)) (avatarPending w).

Definition removeAvatar (rid : nat) (w : World) : World :=
  mkWorld (app w) (now w) (debounceTimeout w) (sent w)
          (searchPending w) (filter (λ n, n ≠ rid) (avatarPending w)).

(** ** [fetchAvatarUrls] (App.tsx:46-59) *)

Definition avatarRequest (userIds : list Z) : Request :=
  mkRequest
    (lit "https://thumbnails.roblox.com/v1/users/avatar-headshot?userIds="
     ++ join (lit ",") (map Z_toString userIds)
     ++ lit "&size=150x150&format=Png")
    [].

(** Up to the [await]: the request goes out. *)
Definition fetchAvatarUrls (userIds : list Z) (w : World) : World :=
  fetchAvatar (avatarRequest userIds) w.

(** [data.data.reduce((acc, item) => ({...acc, [item.targetId]: item.imageUrl}), {})] *)
Definition newUrls (items : list Thumbnail.t) : gmap Z jsstring :=
  foldl (λ acc item, <[Thumbnail.targetId item := Thumbnail.imageUrl item]> acc)
        ∅ items.

(** After the [await]: every way of failing ends in the [catch], which only
    logs. *)
Definition fetchAvatarUrls_resume (r : settled ThumbnailResponse.t) (w : World)
  : World :=
  match r with
  | Rejected _ => w
  | Fulfilled status b =>
    if negb (ok status) then w
    else match b with
         | JsonRejects _ => w
         | Json d =>
           match ThumbnailResponse.data d with
           | None => w
           | Some items =>
             update (setAvatarUrls (λ prev, newUrls items ∪ prev)) w
           end
         end
  end.

(** ** [handleUserClick] (App.tsx:61-65) *)

Definition handleUserClick (user : RobloxUser.t) (s : AppState) : AppState :=
  setQuery [] (setShowDropdown false (setSelectedUser (Some user) s)).

(** ** [searchUsers] (App.tsx:68-106) *)

Definition searchRequest (keyword : jsstring) : Request :=
  mkRequest
    (lit "/api/v1/users/search?keyword=" ++ keyword ++ lit "&limit=10")
    [(lit "Accept", lit "application/json")].

(** The [catch] and [finally] blocks. *)
Definition searchUsers_catch (e : thrown) (s : AppState) : AppState :=
  let errorMessage :=
    match e with
    | ErrorObj message => message
    | NonError => lit "An unknown error occurred"
    end in
  setIsLoading false (setUsers [] (setError (Some errorMessage) s)).

(** From the call to the [await] of [fetch], with the [query] of the
    closure. *)
Definition searchUsers (query : jsstring) (w : World) : World :=
  if (length query <? 2)%nat then
    update (λ s, setError None (setUsers [] s)) w
  else
    let w := update (λ s, setError None (setIsLoading true s)) w in
    match encodeURIComponent query with
    | Throw e => update (searchUsers_catch e) w
    | Normal keyword => fetchSearch (searchRequest keyword) w
    end.

(** From the [await] of [fetch] to the end. *)
Definition searchUsers_resume (r : settled SearchResponse.t) (w : World)
  : World :=
  match r with
  | Rejected e => update (searchUsers_catch e) w
  | Fulfilled status b =>
    if negb (ok status) then
      update (searchUsers_catch
                (ErrorObj (lit "HTTP error! status: " ++ N_toString status))) w
    else match b with
         | JsonRejects e => update (searchUsers_catch e) w
         | Json d =>
           let data := SearchResponse.data d in
           let w := update (setUsers (default [] data)) w in
           let w :=
             match data with
             | Some (u :: l) => fetchAvatarUrls (map RobloxUser.id (u :: l)) w
             | _ => w
             end in
           let w := update (setShowDropdown true) w in
           update (setIsLoading false) w
         end
  end.

(** ** The effect on [query] (App.tsx:67-110)

    The effect runs after a render in which [query] differs from the
    previous render: its cleanup clears the old timer and a new timer is
    set for 300 ms later.  Setting [query] to the value it has starts no
    effect. *)
Definition useEffect_query (previous : jsstring) (w : World) : World :=
  if bool_decide (query (app w) = previous) then w
  else setTimer (Some (now w + 300, query (app w))) w.

Definition setState (f : AppState -> AppState) (w : World) : World :=
  useEffect_query (query (app w)) (update f w).

(** ** Rendering of the dropdown (App.tsx:132-178) *)

Inductive dropdown := hidden | loading | errored | empty | populated.

(** JS truthiness of [error]: [null] and the empty string are falsy. *)
Definition truthy (e : option jsstring) : bool :=
  match e with
  | Some (_ :: _) => true
  | _ => false
  end.

Definition dropdownState (s : AppState) : dropdown :=
  if showDropdown s && (0 <? length (query s))%nat then
    if isLoading s then loading
    else if truthy (error s) then errored
    else if (0 <? length (users s))%nat then populated
    else empty
  else hidden.

(** ** Events

    What can happen to the mounted component: the user's actions, each
    running one handler of the JSX, and the settling of an outstanding
    request, which resumes the [async] function that awaits it. *)

Inductive action :=
| onChange (value : jsstring)           (* App.tsx:120 *)
| clickSearch                           (* App.tsx:126 *)
| mousedownOutside                      (* App.tsx:36-40 *)
| clickUser (i : nat)                   (* App.tsx:144, the i-th row *)
| onOpenChange (open : bool)            (* App.tsx:181 *)
| searchSettles (rid : nat) (r : settled SearchResponse.t)
| avatarSettles (rid : nat) (r : settled ThumbnailResponse.t).

(** The handler each action runs.  [mousedownOutside] is a mousedown whose
    target is outside the widget (inside it, [handleClickOutside] does
    nothing); a row can be clicked only where the rows are rendered; a
    settling is delivered only to a request that still awaits it. *)
Definition act (a : action) (w : World) : World :=
  match a with
  | onChange value => setState (setQuery value) w
  | clickSearch => setState (setShowDropdown true) w
  | mousedownOutside => setState (setShowDropdown false) w
  | clickUser i =>
    match dropdownState (app w), users (app w) !! i with
    | populated, Some user => setState (handleUserClick user) w
    | _, _ => w
    end
  | onOpenChange open =>
    if open then w else setState (setSelectedUser None) w
  | searchSettles rid r =>
    if bool_decide (rid ∈ searchPending w)
    then searchUsers_resume r (removeSearch rid w) else w
  | avatarSettles rid r =>
    if bool_decide (rid ∈ avatarPending w)
    then fetchAvatarUrls_resume r (removeAvatar rid w) else w
  end.

(** [dt] milliseconds pass; the timer fires when its deadline is reached,
    running the [searchUsers] it was set with. *)
Definition elapse (dt : N) (w : World) : World :=
  let w := setNow (now w + dt) w in
  match debounceTimeout w with
  | Some (deadline, q) =>
    if deadline <=? now w then searchUsers q (setTimer None w) else w
  | None => w
  end.

(** After mount: the initial state, and the timer of the first run of the
    effect. *)
Definition mounted : World :=
  mkWorld initialState 0 (Some (300, [])) [] [] [].

Inductive reachable : World -> Prop :=
| reachable_mounted : reachable mounted
| reachable_act a w : reachable w -> reachable (act a w)
| reachable_elapse dt w : reachable w -> reachable (elapse dt w).

(** A run of events, each after a delay. *)
Inductive event :=
| after (dt : N) (a : action).

Definition step (w : World) (e : event) : World :=
  match e with after dt a => act a (elapse dt w) end.

Definition run (es : list event) (w : World) : World := foldl step w es.

(** ** Scenarios

    The example of the specification, typing [ro], and variations of it. *)

Definition roblox : RobloxUser.t :=
  RobloxUser.mk [] true 1 (lit "roblox") (lit "Roblox").

Definition roblox_thumbnail : Thumbnail.t :=
  Thumbnail.mk 1 (lit "Completed") (lit "https://tr.rbxcdn.com/1.png").

(** The user types [r], then [o] 100 ms later, and stops. *)
Definition typed_ro : World :=
  elapse 300 (run [after 1000 (onChange (lit "r")); after 100 (onChange (lit "ro"))] mounted).

(** The search answers with one profile. *)
Definition shown_ro : World :=
  act (searchSettles 0 (Fulfilled 200 (Json (SearchResponse.mk (Some [roblox])))))
      typed_ro.

(** The search answers with status 500 instead. *)
Definition failed_ro : World :=
  act (searchSettles 0 (Fulfilled 500 (JsonRejects NonError))) typed_ro.

(** The user empties the input while the search for [ro] is awaited; then
    the search answers with one profile. *)
Definition cleared_ro : World :=
  act (searchSettles 0 (Fulfilled 200 (Json (SearchResponse.mk (Some [roblox])))))
      (act (onChange []) typed_ro).

(** The user deletes the [o] while the search for [ro] is awaited, the
    timer fires for [r], and then the search for [ro] answers. *)
Definition late_ro : World :=
  act (searchSettles 0 (Fulfilled 200 (Json (SearchResponse.mk (Some [roblox])))))
      (elapse 300 (act (onChange (lit "r")) typed_ro)).

(** Two searches overlap: [ro] is sent, [rob] is sent 300 ms later while
    [ro] is still awaited, [rob] fails and then [ro] answers. *)
Definition raced_ro : World :=
  act (searchSettles 0 (Fulfilled 200 (Json (SearchResponse.mk (Some [roblox])))))
    (act (searchSettles 1 (Rejected (ErrorObj (lit "Failed to fetch"))))
       (elapse 300
          (run [after 1000 (onChange (lit "ro")); after 300 (onChange (lit "rob"))]
               mounted))).

(** ** Vocabulary of the properties *)

(** Network error or non-2xx status. *)
Definition transportFailure {A} (r : settled A) : bool :=
  match r with
  | Rejected _ => true
  | Fulfilled status _ => negb (ok status)
  end.

(** The thumbnails of a successful avatar fetch: a 2xx response whose body
    parses and has a [data] array.  Everything else is a failed fetch. *)
Definition fetched (r : settled ThumbnailResponse.t) : option (list Thumbnail.t) :=
  match r with
  | Fulfilled status (Json d) =>
    if ok status then ThumbnailResponse.data d else None
  | _ => None
  end.

(** The requests a run of [searchUsers] with [q] sends: none for a text
    shorter than 2 code units or one that cannot be encoded, else one. *)
Definition dispatched (q : jsstring) : list Request :=
  if (length q <? 2)%nat then []
  else match encodeURIComponent q with
       | Normal keyword => [searchRequest keyword]
       | Throw _ => []
       end.

(** No code unit of [s] is a surrogate. *)
Definition noSurrogates (s : jsstring) : Prop :=
  Forall (λ c, isLeadingSurrogate c = false /\ isTrailingSurrogate c = false) s.

(** The alphabet of a URL-encoded text: unreserved characters and [%]. *)
Definition urlSafe (c : N) : Prop := uriUnreserved c = true \/ c = 37.

(** A burst of edits of the input, each with the delay since the event
    before it. *)
Definition typing (edits : list (N * jsstring)) : World -> World :=
  run (map (λ e, after e.1 (onChange e.2)) edits).

(** Every edit changes the text it finds. *)
Fixpoint changing (q : jsstring) (values : list jsstring) : Prop :=
  match values with
  | [] => True
  | v :: rest => v <> q /\ changing v rest
  end.

(** The timer was set by the render that gave [query] the value [q], and
    no time has passed since. *)
Definition armed (q : jsstring) (w : World) : Prop :=
  debounceTimeout w = Some (now w + 300, q) /\ query (app w) = q.

(** The text a live timer will search for is the current query text. *)
Definition timerTracksQuery (w : World) : Prop :=
  forall d q, debounceTimeout w = Some (d, q) -> q = query (app w).




(** Trimming as the specification words it, for comparison with the
    request the code sends: [String.prototype.trim], which strips
    WhiteSpace and LineTerminator code units at both ends. *)
Definition spec_isWhiteSpace (c : N) : bool :=
  between 9 13 c
  || bool_decide (c ∈ [32; 0xA0; 0x1680; 0x2028; 0x2029; 0x202F; 0x205F; 0x3000; 0xFEFF])
  || between 0x2000 0x200A c.

Fixpoint spec_trimStart (s : jsstring) : jsstring :=
  match s with
  | c :: rest => if spec_isWhiteSpace c then spec_trimStart rest else s
  | [] => []
  end.

Definition spec_trim (s : jsstring) : jsstring :=
  reverse (spec_trimStart (reverse (spec_trimStart s))).

(** ** Rendering of a result row (App.tsx:140-171) and of the modal
    (App.tsx:185-246) *)

Definition placeholder : jsstring :=
  lit "https://tr.rbxcdn.com/53eb9b17fe1432a809c73a13889b5006/150/150/Image/Png".

(** [avatarUrls[id] || placeholder]: a missing id and an empty URL both
    fall back. *)
Definition avatarSrc (urls : gmap Z jsstring) (id : Z) : jsstring :=
  match urls !! id with
  | Some (c :: u) => c :: u
  | _ => placeholder
  end.

Record Row := mkRow {
  key : Z;
  src : jsstring;
  alt : jsstring;
  title : jsstring;
  handle : jsstring;
  verified : bool;
  previous : option jsstring }.

Definition renderRow (s : AppState) (user : RobloxUser.t) : Row :=
  mkRow (RobloxUser.id user)
        (avatarSrc (avatarUrls s) (RobloxUser.id user))
        (RobloxUser.displayName user ++ lit "'s avatar")
        (RobloxUser.displayName user)
        (lit "@" ++ RobloxUser.name user)
        (RobloxUser.hasVerifiedBadge user)
        (match RobloxUser.previousUsernames user with
         | [] => None
         | l => Some (lit "Previous: " ++ join (lit ", ") l)
         end).

(** The rows on screen: the list is rendered in the populated state only. *)
Definition rows (s : AppState) : list Row :=
  match dropdownState s with
  | populated => map (renderRow s) (users s)
  | _ => []
  end.

(** The link of the modal (App.tsx:236). *)
Definition profileLink (id : Z) : jsstring :=
  lit "https://www.roblox.com/users/" ++ Z_toString id ++ lit "/profile".

Record Modal := mkModal {
  modalSrc : jsstring;
  modalTitle : jsstring;
  modalHandle : jsstring;
  modalVerified : bool;
  modalUserId : jsstring;
  modalPrevious : list jsstring;
  href : jsstring }.

(** The dialog is open exactly when a user is selected (App.tsx:181). *)
Definition renderModal (s : AppState) : option Modal :=
  match selectedUser s with
  | Some user =>
    Some (mkModal (avatarSrc (avatarUrls s) (RobloxUser.id user))
                  (RobloxUser.displayName user)
                  (lit "@" ++ RobloxUser.name user)
                  (RobloxUser.hasVerifiedBadge user)
                  (Z_toString (RobloxUser.id user))
                  (RobloxUser.previousUsernames user)
                  (profileLink (RobloxUser.id user)))
  | None => None
  end.

(** The searches for [ro] and for [rob] are both awaited. *)
Definition overlapping_ro : World :=
  elapse 300
    (run [after 1000 (onChange (lit "ro")); after 300 (onChange (lit "rob"))] mounted).

Definition builderman : RobloxUser.t :=
  RobloxUser.mk [lit "builder"] false 156 (lit "builderman") (lit "Builderman").

(** Closing the modal with the mouse.  The dialog is rendered outside the
    [dropdownRef] element (App.tsx:115 against App.tsx:181-209), so a press
    on its close control or on its backdrop is also a mousedown outside the
    widget: [handleClickOutside] runs besides [onOpenChange(false)]. *)
Definition closeByMouse (w : World) : World :=
  act (onOpenChange false) (act mousedownOutside w).

(** The searches for [ro] and [rob] overlap; [rob] answers, its row is
    clicked, and the late answer for [ro] arrives while the modal is
    open. *)
Definition modal_open_late_ro : World :=
  act (searchSettles 0 (Fulfilled 200 (Json (SearchResponse.mk (Some [roblox])))))
    (act (clickUser 0)
       (act (searchSettles 1 (Fulfilled 200 (Json (SearchResponse.mk (Some [builderman])))))
          overlapping_ro)).

(** ** Vocabulary of the further properties *)

(** A search response that takes the success path: 2xx and a body that
    parses. *)
Definition succeeds (r : settled SearchResponse.t) : option (list RobloxUser.t) :=
  match r with
  | Fulfilled status (Json d) =>
    if ok status then Some (default [] (SearchResponse.data d)) else None
  | _ => None
  end.

(** The two shapes of request the program sends: a search for a text of at
    least 2 code units, and an avatar batch for at least one id. *)
Definition isSearchRequest (r : Request) : Prop :=
  exists q keyword,
    (2 <= length q)%nat /\ encodeURIComponent q = Normal keyword /\
    r = searchRequest keyword.

Definition isAvatarRequest (r : Request) : Prop :=
  exists userIds, userIds <> [] /\ r = avatarRequest userIds.

(** What is awaited was sent, as a request of the right kind. *)
Definition wellSent (w : World) : Prop :=
  Forall (λ r, isSearchRequest r \/ isAvatarRequest r) (sent w) /\
  (forall rid, rid ∈ searchPending w ->
     exists r, sent w !! rid = Some r /\ isSearchRequest r) /\
  (forall rid, rid ∈ avatarPending w ->
     exists r, sent w !! rid = Some r /\ isAvatarRequest r).

(** A live timer is at most 300 ms away. *)
Definition timerSoon (w : World) : Prop :=
  forall d q, debounceTimeout w = Some (d, q) -> d <= now w + 300.

(** * Properties *)

(** ** [encodeURIComponent] on examples *)

Example encode_ro : encodeURIComponent (lit "ro") = Normal (lit "ro").
Proof. reflexivity. Qed.

Example encode_space : encodeURIComponent (lit "a b&c") = Normal (lit "a%20b%26c").
Proof. vm_compute. reflexivity. Qed.

(** U+00E9, U+20AC and the pair for U+1F600. *)
Example encode_utf8 :
  encodeURIComponent [0xE9; 0x20AC; 0xD83D; 0xDE00]
  = Normal (lit "%C3%A9%E2%82%AC%F0%9F%98%80").
Proof. vm_compute. reflexivity. Qed.

Example encode_lone_surrogate :
  encodeURIComponent [97; 0xD83D] = Throw URIError.
Proof. vm_compute. reflexivity. Qed.

(** ** Runs *)

Lemma reachable_run es w : reachable w -> reachable (run es w).
Proof.
  revert w. induction es as [|[dt a] es IH]; intros w Hw; [exact Hw|].
  apply IH. apply reachable_act, reachable_elapse, Hw.
Qed.

Example typed_ro_sent :
  sent typed_ro = [searchRequest (lit "ro")] /\
  url (searchRequest (lit "ro")) = lit "/api/v1/users/search?keyword=ro&limit=10" /\
  searchPending typed_ro = [0%nat] /\
  dropdownState (app typed_ro) = hidden /\
  isLoading (app typed_ro) = true.
Proof. vm_compute. repeat split; reflexivity. Qed.

Example shown_ro_state :
  dropdownState (app shown_ro) = populated /\
  users (app shown_ro) = [roblox] /\
  sent shown_ro = [searchRequest (lit "ro"); avatarRequest [1%Z]] /\
  url (avatarRequest [1%Z]) =
    lit "https://thumbnails.roblox.com/v1/users/avatar-headshot?userIds=1&size=150x150&format=Png".
Proof. vm_compute. repeat split; reflexivity. Qed.

(** ** Basic facts about the state plumbing *)

Lemma setState_same_query f w :
  query (f (app w)) = query (app w) -> setState f w = update f w.
Proof.
  intros H. unfold setState, useEffect_query. cbn.
  rewrite bool_decide_eq_true_2; [reflexivity | exact H].
Qed.

Lemma setState_new_query f w :
  query (f (app w)) <> query (app w) ->
  setState f w = setTimer (Some (now w + 300, query (f (app w)))) (update f w).
Proof.
  intros H. unfold setState, useEffect_query. cbn.
  rewrite bool_decide_eq_false_2; [reflexivity | exact H].
Qed.

(** The effect touches nothing but the timer. *)
Lemma setState_frame f w :
  app (setState f w) = f (app w) /\ now (setState f w) = now w /\
  sent (setState f w) = sent w /\
  searchPending (setState f w) = searchPending w /\
  avatarPending (setState f w) = avatarPending w.
Proof.
  unfold setState, useEffect_query. cbn. case_bool_decide; cbn; auto.
Qed.

(** ** Selecting a row and closing the modal *)

Lemma handleUserClick_spec user s :
  selectedUser (handleUserClick user s) = Some user /\
  query (handleUserClick user s) = [] /\
  showDropdown (handleUserClick user s) = false /\
  dropdownState (handleUserClick user s) = hidden.
Proof. repeat split. Qed.

(** C8. Selecting a displayed profile makes it the selected user, empties
    the query text and hides the dropdown. *)
Theorem C8_select_displayed_profile (w : World) (i : nat) (user : RobloxUser.t) :
  dropdownState (app w) = populated ->
  users (app w) !! i = Some user ->
  let w' := act (clickUser i) w in
  selectedUser (app w') = Some user /\
  query (app w') = [] /\
  showDropdown (app w') = false /\
  dropdownState (app w') = hidden.
Proof.
  intros Hshown Hrow w'. subst w'. cbn [act]. rewrite Hshown, Hrow.
  destruct (setState_frame (handleUserClick user) w) as [-> _].
  apply handleUserClick_spec.
Qed.

Lemma C8_select_displayed_profile_witness :
  selectedUser (app (act (clickUser 0) shown_ro)) = Some roblox /\
  query (app (act (clickUser 0) shown_ro)) = [] /\
  showDropdown (app (act (clickUser 0) shown_ro)) = false /\
  dropdownState (app (act (clickUser 0) shown_ro)) = hidden.
Proof.
  apply (C8_select_displayed_profile shown_ro 0 roblox); vm_compute; reflexivity.
Defined.

(** The handler [onOpenChange(false)] sets the selected user to none; the
    query text, results, error, loading flag, dropdown flag and avatar cache
    keep their values, and so do the timer and the outstanding requests. *)
Lemma onOpenChange_false_frame (w : World) :
  let w' := act (onOpenChange false) w in
  selectedUser (app w') = None /\
  query (app w') = query (app w) /\
  users (app w') = users (app w) /\
  error (app w') = error (app w) /\
  isLoading (app w') = isLoading (app w) /\
  showDropdown (app w') = showDropdown (app w) /\
  avatarUrls (app w') = avatarUrls (app w) /\
  now w' = now w /\
  debounceTimeout w' = debounceTimeout w /\
  sent w' = sent w /\
  searchPending w' = searchPending w /\
  avatarPending w' = avatarPending w.
Proof.
  cbn [act]. rewrite setState_same_query by reflexivity.
  cbn. repeat split.
Qed.

Lemma modal_open_late_ro_reachable : reachable modal_open_late_ro.
Proof. repeat (apply reachable_act || apply reachable_elapse || apply reachable_mounted). Qed.

(** C9, as stated, fails: in the reachable state [modal_open_late_ro] the
    modal is open and [showDropdown] is true; closing the modal with the
    mouse (close control or backdrop) leaves [showDropdown] false, so the
    dropdown flag is not unchanged.  The handler alone would keep it. *)
Lemma C9_counterexample :
  reachable modal_open_late_ro /\
  selectedUser (app modal_open_late_ro) = Some builderman /\
  showDropdown (app modal_open_late_ro) = true /\
  selectedUser (app (closeByMouse modal_open_late_ro)) = None /\
  showDropdown (app (closeByMouse modal_open_late_ro)) = false /\
  showDropdown (app (closeByMouse modal_open_late_ro))
  <> showDropdown (app modal_open_late_ro) /\
  showDropdown (app (act (onOpenChange false) modal_open_late_ro)) = true.
Proof.
  split; [exact modal_open_late_ro_reachable|].
  vm_compute. repeat split. discriminate.
Qed.

(** C9, amended. Closing the modal sets the selected user to none.  The
    handler [onOpenChange(false)], which is all that runs when the modal
    is closed from the keyboard, changes nothing else.  Closing with the
    mouse, by the close control or the backdrop, also runs the mousedown
    handler of the document, in either order with the same result, and
    that sets [showDropdown] to false; the query text, results, error,
    loading flag and avatar cache are unchanged in every case, and so are
    the timer and the outstanding requests. *)
Theorem C9_close_modal_amended (w : World) :
  (let w' := act (onOpenChange false) w in
   selectedUser (app w') = None /\
   query (app w') = query (app w) /\
   users (app w') = users (app w) /\
   error (app w') = error (app w) /\
   isLoading (app w') = isLoading (app w) /\
   showDropdown (app w') = showDropdown (app w) /\
   avatarUrls (app w') = avatarUrls (app w) /\
   now w' = now w /\
   debounceTimeout w' = debounceTimeout w /\
   sent w' = sent w /\
   searchPending w' = searchPending w /\
   avatarPending w' = avatarPending w) /\
  (let w' := closeByMouse w in
   selectedUser (app w') = None /\
   showDropdown (app w') = false /\
   query (app w') = query (app w) /\
   users (app w') = users (app w) /\
   error (app w') = error (app w) /\
   isLoading (app w') = isLoading (app w) /\
   avatarUrls (app w') = avatarUrls (app w) /\
   now w' = now w /\
   debounceTimeout w' = debounceTimeout w /\
   sent w' = sent w /\
   searchPending w' = searchPending w /\
   avatarPending w' = avatarPending w) /\
  act mousedownOutside (act (onOpenChange false) w) = closeByMouse w.
Proof.
  split; [exact (onOpenChange_false_frame w)|].
  unfold closeByMouse. cbn [act].
  rewrite (setState_same_query (setShowDropdown false) w) by reflexivity.
  rewrite (setState_same_query (setSelectedUser None) w) by reflexivity.
  rewrite !setState_same_query by reflexivity.
  split; [cbn; repeat split | reflexivity].
Qed.

(** ** The failure path of a search *)


(** A failed search never writes [showDropdown]. *)
Lemma failed_search_keeps_showDropdown w (r : settled SearchResponse.t) :
  transportFailure r = true ->
  showDropdown (app (searchUsers_resume r w)) = showDropdown (app w) /\
  users (app (searchUsers_resume r w)) = [] /\
  is_Some (error (app (searchUsers_resume r w))).
Proof.
  destruct r as [e|status b]; cbn [transportFailure searchUsers_resume].
  - intros _. destruct e; cbn; eauto.
  - intros ->. cbn. eauto.
Qed.

(** C1, at the first search of a session failing with status 500: the
    error text is stored and the results are empty, but [showDropdown]
    is still false and the dropdown, which alone renders the error, stays
    hidden; the same for a rejected fetch. *)
Theorem C1_failed_search_dropdown_stays_hidden :
  error (app failed_ro) = Some (lit "HTTP error! status: 500") /\
  users (app failed_ro) = [] /\
  showDropdown (app failed_ro) = false /\
  dropdownState (app failed_ro) = hidden /\
  let w := act (searchSettles 0 (Rejected (ErrorObj (lit "Failed to fetch")))) typed_ro in
  error (app w) = Some (lit "Failed to fetch") /\
  users (app w) = [] /\
  showDropdown (app w) = false /\
  dropdownState (app w) = hidden.
Proof. vm_compute. repeat split; reflexivity. Qed.

(** ** The timer *)

Lemma elapse_not_due w dt d q :
  debounceTimeout w = Some (d, q) -> now w + dt < d ->
  elapse dt w = setNow (now w + dt) w.
Proof.
  intros Ht Hlt. unfold elapse. cbn. rewrite Ht.
  destruct (N.leb_spec d (now w + dt)); [lia | reflexivity].
Qed.

Lemma elapse_due w dt d q :
  debounceTimeout w = Some (d, q) -> d <= now w + dt ->
  elapse dt w = searchUsers q (setTimer None (setNow (now w + dt) w)).
Proof.
  intros Ht Hle. unfold elapse. cbn. rewrite Ht.
  destruct (N.leb_spec d (now w + dt)); [reflexivity | lia].
Qed.

Lemma elapse_idle w dt :
  debounceTimeout w = None -> elapse dt w = setNow (now w + dt) w.
Proof. intros Ht. unfold elapse. cbn. rewrite Ht. reflexivity. Qed.

Lemma searchUsers_short q w :
  (length q < 2)%nat ->
  searchUsers q w = update (λ s, setError None (setUsers [] s)) w.
Proof.
  intros H. unfold searchUsers.
  destruct (Nat.ltb_spec (length q) 2); [reflexivity | lia].
Qed.

Lemma searchUsers_sent q w : sent (searchUsers q w) = sent w ++ dispatched q.
Proof.
  unfold searchUsers, dispatched.
  destruct (length q <? 2)%nat; cbn; [by rewrite app_nil_r|].
  destruct (encodeURIComponent q); cbn; [reflexivity | by rewrite app_nil_r].
Qed.

Lemma dispatched_short q : (length q < 2)%nat -> dispatched q = [].
Proof.
  intros H. unfold dispatched.
  destruct (Nat.ltb_spec (length q) 2); [reflexivity | lia].
Qed.

Lemma dispatched_long q keyword :
  (2 <= length q)%nat -> encodeURIComponent q = Normal keyword ->
  dispatched q = [searchRequest keyword].
Proof.
  intros H Henc. unfold dispatched. rewrite Henc.
  destruct (Nat.ltb_spec (length q) 2); [lia | reflexivity].
Qed.

(** A text without surrogates is always encoded. *)
Lemma encodeURIComponent_total s :
  noSurrogates s -> exists keyword, encodeURIComponent s = Normal keyword.
Proof.
  induction 1 as [|c rest [Hlead Htrail] _ [k IH]]; [by exists []|].
  cbn [encodeURIComponent]. rewrite Hlead, Htrail, IH.
  destruct (uriUnreserved c); cbn; eauto.
Qed.

Lemma onChange_arms v w :
  v <> query (app w) ->
  act (onChange v) w
  = setTimer (Some (now w + 300, v)) (update (setQuery v) w).
Proof. intros H. cbn [act]. by rewrite setState_new_query. Qed.

(** ** Texts shorter than two code units *)

(** C2, as stated, fails: with [roblox] listed for [ro], deleting the [o]
    leaves the text [r] of length 1, and 299 ms later the list is still
    there. *)
Lemma C2_counterexample :
  let w := elapse 299 (act (onChange (lit "r")) shown_ro) in
  (length (query (app w)) < 2)%nat /\ users (app w) = [roblox] /\ users (app w) <> [].
Proof. vm_compute. repeat split; [lia | discriminate]. Qed.

(** C2, amended. An edit to a text shorter than 2 code units changes only
    the query text for the next 300 ms; when the debounce timer fires, the
    results and the error are cleared, and no request is sent. *)
Theorem C2_short_query_cleared_when_timer_fires (w : World) (q : jsstring) :
  (length q < 2)%nat ->
  q <> query (app w) ->
  let w1 := act (onChange q) w in
  (forall dt, dt < 300 ->
     app (elapse dt w1) = setQuery q (app w) /\ sent (elapse dt w1) = sent w) /\
  (forall dt, 300 <= dt ->
     users (app (elapse dt w1)) = [] /\
     error (app (elapse dt w1)) = None /\
     sent (elapse dt w1) = sent w /\
     searchPending (elapse dt w1) = searchPending w /\
     avatarPending (elapse dt w1) = avatarPending w).
Proof.
  intros Hshort Hnew w1. subst w1. rewrite (onChange_arms _ _ Hnew). split.
  - intros dt Hdt. erewrite elapse_not_due; [| reflexivity | cbn; lia].
    split; reflexivity.
  - intros dt Hdt. erewrite elapse_due; [| reflexivity | cbn; lia].
    rewrite (searchUsers_short _ _ Hshort). cbn. repeat split.
Qed.

Lemma C2_short_query_cleared_when_timer_fires_witness :
  let w1 := act (onChange (lit "r")) shown_ro in
  (forall dt, dt < 300 ->
     app (elapse dt w1) = setQuery (lit "r") (app shown_ro) /\
     sent (elapse dt w1) = sent shown_ro) /\
  (forall dt, 300 <= dt ->
     users (app (elapse dt w1)) = [] /\
     error (app (elapse dt w1)) = None /\
     sent (elapse dt w1) = sent shown_ro /\
     searchPending (elapse dt w1) = searchPending shown_ro /\
     avatarPending (elapse dt w1) = avatarPending shown_ro).
Proof.
  apply (C2_short_query_cleared_when_timer_fires shown_ro (lit "r")).
  - vm_compute. lia.
  - vm_compute. discriminate.
Defined.

(** ** Debounce *)

Lemma armed_onChange v w : v <> query (app w) -> armed v (act (onChange v) w).
Proof. intros H. rewrite (onChange_arms _ _ H). split; reflexivity. Qed.

Lemma last_cons {A} (l : list A) : forall x d, List.last (x :: l) d = List.last l x.
Proof.
  induction l as [|a l IH]; intros x d; [reflexivity|].
  change (List.last (x :: a :: l) d) with (List.last (a :: l) d).
  by rewrite !IH.
Qed.

(** A burst started with a live fresh timer never lets a timer fire. *)
Lemma typing_armed edits : forall q w,
  armed q w ->
  Forall (λ e : N * jsstring, e.1 < 300) edits ->
  changing q (map snd edits) ->
  armed (List.last (map snd edits) q) (typing edits w) /\
  sent (typing edits w) = sent w.
Proof.
  induction edits as [|[dt v] edits IH]; intros q w [Ht Hq] Hrapid Hch.
  - cbn. repeat split; assumption.
  - apply Forall_cons in Hrapid as [Hdt Hrapid]. cbn in Hdt.
    cbn [map snd changing] in Hch. destruct Hch as [Hv Hch].
    assert (Hstep : step w (after dt (onChange v))
                    = setTimer (Some (now w + dt + 300, v))
                        (update (setQuery v) (setNow (now w + dt) w))).
    { cbn [step]. rewrite (elapse_not_due _ _ _ _ Ht) by lia.
      rewrite onChange_arms; [reflexivity | cbn; congruence]. }
    change (typing ((dt, v) :: edits) w)
      with (typing edits (step w (after dt (onChange v)))).
    rewrite Hstep. cbn [map snd]. rewrite last_cons.
    destruct (IH v (setTimer (Some (now w + dt + 300, v))
                      (update (setQuery v) (setNow (now w + dt) w))))
      as [Harmed Hsent]; [split; reflexivity | assumption | assumption |].
    split; [exact Harmed | exact Hsent].
Qed.

(** C3, as stated, fails: after the edits [ro] and, 100 ms later, [r], the
    final text is too short and no request is ever sent. *)
Lemma C3_counterexample :
  let edits := [(1000, lit "ro"); (100, lit "r")] in
  Forall (λ e : N * jsstring, e.1 < 300) (tail edits) /\
  changing (query (app mounted)) (map snd edits) /\
  sent (elapse 300 (typing edits mounted)) = [] /\
  sent (elapse 1000000 (typing edits mounted)) = [].
Proof.
  cbn zeta. split; [repeat constructor|].
  split; [cbn; split; [discriminate | split; [|exact I]]; vm_compute; discriminate|].
  vm_compute. split; reflexivity.
Qed.

(** C3, amended. A burst of edits, each changing the text and each less
    than 300 ms after the one before, sends nothing until 300 ms after the
    last edit; then it sends exactly one search request, for the final
    text, when that text has at least 2 code units and can be encoded, and
    none otherwise. *)
Theorem C3_debounce_final_value_only
  (w : World) (d : N) (v : jsstring) (edits : list (N * jsstring)) (dt : N) :
  Forall (λ e : N * jsstring, e.1 < 300) edits ->
  changing (query (app w)) (v :: map snd edits) ->
  let final := List.last (map snd edits) v in
  sent (elapse dt (typing ((d, v) :: edits) w))
  = sent (elapse d w) ++ (if 300 <=? dt then dispatched final else []).
Proof.
  intros Hrapid [Hv Hch] final.
  assert (Hq : query (app (elapse d w)) = query (app w)).
  { unfold elapse. cbn. destruct (debounceTimeout w) as [[d' q']|]; [|reflexivity].
    destruct (d' <=? now w + d); [|reflexivity].
    unfold searchUsers. destruct (length q' <? 2)%nat; [reflexivity|].
    destruct (encodeURIComponent q') as [k|e]; [reflexivity|].
    destruct e; reflexivity. }
  assert (Hfirst : armed v (act (onChange v) (elapse d w))).
  { apply armed_onChange. congruence. }
  change (typing ((d, v) :: edits) w)
    with (typing edits (act (onChange v) (elapse d w))).
  destruct (typing_armed edits v _ Hfirst Hrapid Hch) as [[Ht _] Hsent].
  fold final in Ht.
  assert (Hsent0 : sent (act (onChange v) (elapse d w)) = sent (elapse d w)).
  { cbn [act]. apply setState_frame. }
  rewrite Hsent0 in Hsent.
  destruct (N.leb_spec 300 dt).
  - erewrite elapse_due; [| exact Ht | lia].
    rewrite searchUsers_sent. cbn [sent setTimer setNow]. by rewrite Hsent.
  - erewrite elapse_not_due; [| exact Ht | lia].
    cbn [sent setNow]. by rewrite Hsent, app_nil_r.
Qed.

Lemma C3_debounce_final_value_only_witness :
  sent (elapse 300 (typing [(1000, lit "r"); (100, lit "ro"); (299, lit "rob")] mounted))
  = sent (elapse 1000 mounted) ++ [searchRequest (lit "rob")].
Proof.
  apply (C3_debounce_final_value_only mounted 1000 (lit "r")
           [(100, lit "ro"); (299, lit "rob")] 300).
  - repeat constructor.
  - cbn. repeat split; vm_compute; discriminate.
Defined.

(** ** The search request *)

Lemma hexDigit_unreserved d : d < 16 -> uriUnreserved (hexDigit d) = true.
Proof.
  intros H.
  assert (Hd : d ∈ (N.of_nat <$> seq 0 16)).
  { apply list_elem_of_fmap. exists (N.to_nat d). split; [lia|].
    apply elem_of_seq. lia. }
  cbn in Hd. repeat (apply elem_of_cons in Hd as [->|Hd]; [vm_compute; reflexivity|]).
  by apply elem_of_nil in Hd.
Qed.

Lemma lor_bound a b n : a < 2 ^ n -> b < 2 ^ n -> N.lor a b < 2 ^ n.
Proof.
  intros Ha Hb.
  destruct (N.eq_dec (N.lor a b) 0) as [->|Hne]; [lia|].
  apply N.log2_lt_pow2; [lia|]. rewrite N.log2_lor.
  destruct (N.eq_dec a 0) as [->|Ha0], (N.eq_dec b 0) as [->|Hb0].
  - by rewrite N.lor_0_l in Hne.
  - rewrite N.max_r by (cbn; lia). apply N.log2_lt_pow2; lia.
  - rewrite N.max_l by (cbn; lia). apply N.log2_lt_pow2; lia.
  - apply N.max_lub_lt; apply N.log2_lt_pow2; lia.
Qed.

Lemma land_63_bound a : N.land a 0x3F < 64.
Proof.
  change 0x3F with (N.ones 6). rewrite N.land_ones.
  apply N.mod_lt. discriminate.
Qed.

(** Every octet of the UTF-8 form is below 256. *)
Lemma utf8_octets cp : cp < 0x200000 -> Forall (λ o, o < 256) (utf8 cp).
Proof.
  intros Hcp. unfold utf8.
  assert (H63 : forall a, N.lor 0x80 (N.land a 0x3F) < 256).
  { intros a. apply (lor_bound _ _ 8); [reflexivity|].
    pose proof (land_63_bound a). cbn. lia. }
  assert (Hshift : forall k m, cp < 2 ^ (k + m) -> N.shiftr cp k < 2 ^ m).
  { intros k m H. rewrite N.shiftr_div_pow2.
    apply N.Div0.div_lt_upper_bound. by rewrite <- N.pow_add_r. }
  destruct (N.ltb_spec cp 0x80); [repeat constructor; lia|].
  destruct (N.ltb_spec cp 0x800).
  { repeat constructor; [|apply H63].
    apply (lor_bound _ _ 8); [reflexivity|].
    pose proof (Hshift 6 5 ltac:(cbn; lia)). cbn in *. lia. }
  destruct (N.ltb_spec cp 0x10000).
  { repeat constructor; try apply H63.
    apply (lor_bound _ _ 8); [reflexivity|].
    pose proof (Hshift 12 4 ltac:(cbn; lia)). cbn in *. lia. }
  repeat constructor; try apply H63.
  apply (lor_bound _ _ 8); [reflexivity|].
  pose proof (Hshift 18 3 ltac:(cbn; lia)). cbn in *. lia.
Qed.

Lemma escape_urlSafe cp : cp < 0x200000 -> Forall urlSafe (escape cp).
Proof.
  intros Hcp. unfold escape. apply Forall_concat, Forall_fmap.
  eapply Forall_impl; [apply utf8_octets, Hcp|].
  intros o Ho. cbn beta in Ho. unfold percent.
  apply Forall_cons_2; [by right|].
  apply Forall_cons_2.
  { left. apply hexDigit_unreserved. apply N.Div0.div_lt_upper_bound. lia. }
  apply Forall_cons_2; [|apply Forall_nil_2].
  left. apply hexDigit_unreserved. apply N.mod_lt. discriminate.
Qed.

Lemma prepend_Normal {A} (x : list A) r k :
  prepend x r = Normal k -> exists s, r = Normal s /\ k = x ++ s.
Proof. destruct r as [s|e]; cbn; [|discriminate]. intros [= <-]. eauto. Qed.

Lemma between_spec lo hi c : between lo hi c = true <-> lo <= c <= hi.
Proof. unfold between. rewrite andb_true_iff, !N.leb_le. tauto. Qed.

(** What [encodeURIComponent] returns is made of unreserved characters and
    percent escapes only. *)
Lemma encodeURIComponent_urlSafe : forall n s k,
  (length s <= n)%nat ->
  Forall (λ c, c < 0x10000) s ->
  encodeURIComponent s = Normal k ->
  Forall urlSafe k.
Proof.
  induction n as [|n IH]; intros s k Hlen Hunits Henc.
  { destruct s; [|cbn in Hlen; lia]. injection Henc as <-. constructor. }
  destruct s as [|c rest]; [injection Henc as <-; constructor|].
  apply Forall_cons in Hunits as [Hc Hunits]. cbn in Hlen, Hc.
  cbn [encodeURIComponent] in Henc.
  destruct (uriUnreserved c) eqn:Hun.
  { apply prepend_Normal in Henc as (s' & Hs' & ->).
    apply Forall_app. split; [apply Forall_cons_2; [by left | apply Forall_nil_2]|].
    apply (IH rest); [lia | assumption | assumption]. }
  destruct (isLeadingSurrogate c) eqn:Hlead.
  { destruct rest as [|d rest']; [discriminate|].
    destruct (isTrailingSurrogate d) eqn:Htrail; [|discriminate].
    apply prepend_Normal in Henc as (s' & Hs' & ->).
    apply Forall_cons in Hunits as [_ Hunits]. cbn in Hlen.
    apply Forall_app. split; [|apply (IH rest'); [lia | assumption | assumption]].
    apply escape_urlSafe. unfold UTF16SurrogatePairToCodePoint.
    apply between_spec in Hlead, Htrail. lia. }
  destruct (isTrailingSurrogate c); [discriminate|].
  apply prepend_Normal in Henc as (s' & Hs' & ->).
  apply Forall_app. split; [apply escape_urlSafe; lia|].
  apply (IH rest); [lia | assumption | assumption].
Qed.

(** C4, as stated, fails: for the text [ ab] the request carries the
    keyword [%20ab], the encoding of the text as typed, and not [ab], the
    encoding of the trimmed text. *)
Lemma C4_counterexample :
  let q := lit " ab" in
  sent (searchUsers q mounted) = [searchRequest (lit "%20ab")] /\
  encodeURIComponent (spec_trim q) = Normal (lit "ab") /\
  url (searchRequest (lit "%20ab")) <> url (searchRequest (lit "ab")).
Proof. vm_compute. repeat split. discriminate. Qed.

(** C4, amended. Every request [searchUsers] sends is a GET of the search
    endpoint whose keyword is the URL-encoding of the query text exactly as
    typed (no trimming), followed by the fixed limit 10, with the header
    [Accept: application/json]; the keyword consists of unreserved
    characters and percent escapes only. *)
Theorem C4_request_carries_encoded_query (w : World) (q : jsstring) (r : Request) :
  Forall (λ c, c < 0x10000) q ->
  sent (searchUsers q w) = sent w ++ [r] ->
  exists keyword,
    encodeURIComponent q = Normal keyword /\
    Forall urlSafe keyword /\
    url r = lit "/api/v1/users/search?keyword=" ++ keyword ++ lit "&limit=10" /\
    headers r = [(lit "Accept", lit "application/json")].
Proof.
  intros Hunits Hsent. rewrite searchUsers_sent in Hsent.
  apply app_inv_head in Hsent. unfold dispatched in Hsent.
  destruct (length q <? 2)%nat; [discriminate|].
  destruct (encodeURIComponent q) as [keyword|e] eqn:Henc; [|discriminate].
  injection Hsent as <-. exists keyword. repeat split.
  eapply encodeURIComponent_urlSafe; [reflexivity | exact Hunits | exact Henc].
Qed.

Lemma C4_request_carries_encoded_query_witness :
  exists keyword,
    encodeURIComponent (lit " ab") = Normal keyword /\
    Forall urlSafe keyword /\
    url (searchRequest (lit "%20ab"))
    = lit "/api/v1/users/search?keyword=" ++ keyword ++ lit "&limit=10" /\
    headers (searchRequest (lit "%20ab")) = [(lit "Accept", lit "application/json")].
Proof.
  apply (C4_request_carries_encoded_query mounted (lit " ab")
           (searchRequest (lit "%20ab"))).
  - vm_compute. repeat constructor.
  - vm_compute. reflexivity.
Defined.

(** ** The avatar cache *)

Lemma newUrls_fold_other (items : list Thumbnail.t) (k : Z) : forall acc : gmap Z jsstring,
  Forall (λ x, Thumbnail.targetId x <> k) items ->
  foldl (λ acc item, <[Thumbnail.targetId item := Thumbnail.imageUrl item]> acc)
        acc items !! k = acc !! k.
Proof.
  induction items as [|x items IH]; intros acc Hne; [reflexivity|].
  apply Forall_cons in Hne as [Hx Hne]. cbn [foldl].
  rewrite IH by assumption. by rewrite lookup_insert_ne.
Qed.

(** The last thumbnail returned for an id is the one stored. *)
Lemma newUrls_last l1 item l2 :
  Forall (λ x, Thumbnail.targetId x <> Thumbnail.targetId item) l2 ->
  newUrls (l1 ++ item :: l2) !! Thumbnail.targetId item
  = Some (Thumbnail.imageUrl item).
Proof.
  intros Hne. unfold newUrls. rewrite foldl_app. cbn [foldl].
  rewrite newUrls_fold_other by assumption. apply lookup_insert_eq.
Qed.

Lemma newUrls_other items k :
  Forall (λ x, Thumbnail.targetId x <> k) items -> newUrls items !! k = None.
Proof. intros Hne. unfold newUrls. by rewrite newUrls_fold_other. Qed.

Lemma fetchAvatarUrls_resume_fetched r w :
  fetchAvatarUrls_resume r w
  = match fetched r with
    | Some items => update (setAvatarUrls (λ prev, newUrls items ∪ prev)) w
    | None => w
    end.
Proof.
  destruct r as [e|status [e|[data]]]; cbn; try reflexivity;
    destruct (ok status); cbn; try reflexivity.
Qed.

Lemma searchUsers_avatarUrls q w :
  avatarUrls (app (searchUsers q w)) = avatarUrls (app w).
Proof.
  unfold searchUsers. destruct (length q <? 2)%nat; [reflexivity|].
  destruct (encodeURIComponent q) as [k|[m|]]; reflexivity.
Qed.

Lemma searchUsers_resume_avatarUrls r w :
  avatarUrls (app (searchUsers_resume r w)) = avatarUrls (app w).
Proof.
  destruct r as [e|status b]; cbn [searchUsers_resume].
  - destruct e; reflexivity.
  - destruct (ok status); cbn [negb]; [|reflexivity].
    destruct b as [e|[data]]; [destruct e; reflexivity|].
    destruct data as [[|u l]|]; reflexivity.
Qed.

Lemma elapse_avatarUrls dt w :
  avatarUrls (app (elapse dt w)) = avatarUrls (app w).
Proof.
  unfold elapse. cbn. destruct (debounceTimeout w) as [[d q]|]; [|reflexivity].
  destruct (d <=? now w + dt); [|reflexivity]. by rewrite searchUsers_avatarUrls.
Qed.

(** No event removes an id from the cache. *)
Lemma act_avatarUrls_mono a w k :
  is_Some (avatarUrls (app w) !! k) ->
  is_Some (avatarUrls (app (act a w)) !! k).
Proof.
  intros Hk. destruct a as [v| | |i|open|rid r|rid r]; cbn [act].
  - by destruct (setState_frame (setQuery v) w) as [-> _].
  - by destruct (setState_frame (setShowDropdown true) w) as [-> _].
  - by destruct (setState_frame (setShowDropdown false) w) as [-> _].
  - destruct (dropdownState (app w)); try assumption.
    destruct (users (app w) !! i) as [user|]; [|assumption].
    by destruct (setState_frame (handleUserClick user) w) as [-> _].
  - destruct open; [assumption|].
    by destruct (setState_frame (setSelectedUser None) w) as [-> _].
  - case_bool_decide; [|assumption]. by rewrite searchUsers_resume_avatarUrls.
  - case_bool_decide; [|assumption]. rewrite fetchAvatarUrls_resume_fetched.
    destruct (fetched r) as [items|]; [|assumption]. cbn.
    apply lookup_union_is_Some. by right.
Qed.

Lemma run_avatarUrls_mono es k : forall w,
  is_Some (avatarUrls (app w) !! k) ->
  is_Some (avatarUrls (app (run es w)) !! k).
Proof.
  induction es as [|[dt a] es IH]; intros w Hk; [exact Hk|].
  apply IH. cbn [step]. apply act_avatarUrls_mono. by rewrite elapse_avatarUrls.
Qed.

(** C5. When an avatar fetch succeeds, every returned pair is merged into
    the cache (the last one wins when an id is returned twice) and the ids
    not returned keep the URL they had; when it fails, the state is
    unchanged; and no run of events ever removes an id from the cache. *)
Theorem C5_avatar_cache_additive (w : World) :
  (forall rid r, rid ∈ avatarPending w ->
     let w' := act (avatarSettles rid r) w in
     match fetched r with
     | Some items =>
       (forall l1 item l2,
          items = l1 ++ item :: l2 ->
          Forall (λ x, Thumbnail.targetId x <> Thumbnail.targetId item) l2 ->
          avatarUrls (app w') !! Thumbnail.targetId item
          = Some (Thumbnail.imageUrl item)) /\
       (forall k,
          Forall (λ x, Thumbnail.targetId x <> k) items ->
          avatarUrls (app w') !! k = avatarUrls (app w) !! k)
     | None => app w' = app w
     end) /\
  (forall es dt k,
     is_Some (avatarUrls (app w) !! k) ->
     is_Some (avatarUrls (app (elapse dt (run es w))) !! k)).
Proof.
  split.
  - intros rid r Hrid w'. subst w'. cbn [act].
    rewrite bool_decide_eq_true_2 by assumption.
    rewrite fetchAvatarUrls_resume_fetched.
    destruct (fetched r) as [items|]; [|reflexivity]. cbn. split.
    + intros l1 item l2 -> Hlast.
      apply lookup_union_Some_l. by apply newUrls_last.
    + intros k Hk. apply lookup_union_r. by apply newUrls_other.
  - intros es dt k Hk. rewrite elapse_avatarUrls. by apply run_avatarUrls_mono.
Qed.

Lemma C5_avatar_cache_additive_witness :
  let r := Fulfilled 200 (Json (ThumbnailResponse.mk (Some [roblox_thumbnail]))) in
  avatarUrls (app (act (avatarSettles 1 r) shown_ro)) !! 1%Z
  = Some (lit "https://tr.rbxcdn.com/1.png").
Proof.
  intros r.
  destruct (C5_avatar_cache_additive shown_ro) as [Hsettle _].
  assert (Hpending : 1%nat ∈ avatarPending shown_ro).
  { apply (bool_decide_unpack _). vm_compute. reflexivity. }
  destruct (Hsettle 1%nat r Hpending) as [Hmerged _].
  apply (Hmerged [] roblox_thumbnail []); [reflexivity | constructor].
Defined.

(** ** The success path of a search *)

(** C6, as stated, fails: when the input was emptied while the request was
    awaited, a response with one profile stores the profile and sets
    [showDropdown], yet the dropdown is not rendered; and when an
    overlapping search has failed meanwhile, the dropdown renders the error
    and not the profile. *)
Lemma C6_counterexample :
  users (app cleared_ro) = [roblox] /\
  showDropdown (app cleared_ro) = true /\
  dropdownState (app cleared_ro) = hidden /\
  dropdownState (app cleared_ro) <> populated /\
  users (app raced_ro) = [roblox] /\
  showDropdown (app raced_ro) = true /\
  dropdownState (app raced_ro) = errored /\
  dropdownState (app raced_ro) <> populated.
Proof. vm_compute. repeat split; discriminate. Qed.

(** C6, amended. A successful search response with k > 0 profiles replaces
    the results by these profiles in response order, sets [showDropdown],
    ends loading and sends exactly one avatar request, for the k ids in
    that order; the dropdown then renders as populated provided the query
    text is not empty and no error is stored at that moment.  With [data]
    absent (or empty) the results become empty, [showDropdown] is set and
    no avatar request is sent. *)
Theorem C6_successful_search_response
  (w : World) (rid : nat) (status : N) (data : option (list RobloxUser.t)) :
  rid ∈ searchPending w ->
  ok status = true ->
  let w' := act (searchSettles rid (Fulfilled status (Json (SearchResponse.mk data)))) w in
  match data with
  | Some (u :: l) =>
    users (app w') = u :: l /\
    showDropdown (app w') = true /\
    isLoading (app w') = false /\
    sent w' = sent w ++ [avatarRequest (map RobloxUser.id (u :: l))] /\
    avatarPending w' = avatarPending w ++ [length (sent w)] /\
    (query (app w) <> [] -> truthy (error (app w)) = false ->
     dropdownState (app w') = populated)
  | _ =>
    users (app w') = [] /\
    showDropdown (app w') = true /\
    isLoading (app w') = false /\
    sent w' = sent w /\
    avatarPending w' = avatarPending w
  end.
Proof.
  intros Hrid Hok w'. subst w'. cbn [act].
  rewrite bool_decide_eq_true_2 by assumption.
  cbn [searchUsers_resume]. rewrite Hok. cbn [negb].
  destruct data as [[|u l]|]; cbn; repeat split.
  intros Hq Herr. unfold dropdownState. cbn. rewrite Herr.
  destruct (query (app w)); [congruence | reflexivity].
Qed.

Lemma C6_successful_search_response_witness :
  users (app shown_ro) = [roblox] /\
  showDropdown (app shown_ro) = true /\
  isLoading (app shown_ro) = false /\
  sent shown_ro = sent typed_ro ++ [avatarRequest (map RobloxUser.id [roblox])] /\
  avatarPending shown_ro = avatarPending typed_ro ++ [length (sent typed_ro)] /\
  (query (app typed_ro) <> [] -> truthy (error (app typed_ro)) = false ->
   dropdownState (app shown_ro) = populated).
Proof.
  apply (C6_successful_search_response typed_ro 0 200 (Some [roblox])).
  - apply (bool_decide_unpack _). vm_compute. reflexivity.
  - vm_compute. reflexivity.
Defined.

(** ** Frames of the search functions *)

Lemma searchUsers_frame q w :
  query (app (searchUsers q w)) = query (app w) /\
  showDropdown (app (searchUsers q w)) = showDropdown (app w) /\
  selectedUser (app (searchUsers q w)) = selectedUser (app w) /\
  now (searchUsers q w) = now w /\
  debounceTimeout (searchUsers q w) = debounceTimeout w /\
  avatarPending (searchUsers q w) = avatarPending w.
Proof.
  unfold searchUsers. destruct (length q <? 2)%nat; [repeat split|].
  destruct (encodeURIComponent q) as [k|[m|]]; repeat split.
Qed.

Lemma searchUsers_resume_frame r w :
  query (app (searchUsers_resume r w)) = query (app w) /\
  selectedUser (app (searchUsers_resume r w)) = selectedUser (app w) /\
  now (searchUsers_resume r w) = now w /\
  debounceTimeout (searchUsers_resume r w) = debounceTimeout w /\
  searchPending (searchUsers_resume r w) = searchPending w.
Proof.
  destruct r as [e|status b]; cbn [searchUsers_resume].
  - destruct e; repeat split.
  - destruct (ok status); cbn [negb]; [|repeat split].
    destruct b as [e|[data]]; [destruct e; repeat split|].
    destruct data as [[|u l]|]; repeat split.
Qed.

Lemma fetchAvatarUrls_resume_frame r w :
  query (app (fetchAvatarUrls_resume r w)) = query (app w) /\
  users (app (fetchAvatarUrls_resume r w)) = users (app w) /\
  error (app (fetchAvatarUrls_resume r w)) = error (app w) /\
  debounceTimeout (fetchAvatarUrls_resume r w) = debounceTimeout w /\
  searchPending (fetchAvatarUrls_resume r w) = searchPending w.
Proof.
  rewrite fetchAvatarUrls_resume_fetched.
  destruct (fetched r); repeat split.
Qed.

(** ** The timer follows the query *)

Lemma setState_tracks f w :
  timerTracksQuery w -> timerTracksQuery (setState f w).
Proof.
  intros Hw d q. unfold setState, useEffect_query. cbn.
  case_bool_decide as Hq; cbn.
  - intros Ht. rewrite Hq. by apply (Hw d).
  - by intros [= _ <-].
Qed.

Lemma reachable_tracks w : reachable w -> timerTracksQuery w.
Proof.
  induction 1 as [|a w Hw IH|dt w Hw IH].
  - by intros d q [= _ <-].
  - destruct a as [v| | |i|open|rid r|rid r]; cbn [act];
      try (by apply setState_tracks).
    + destruct (dropdownState (app w)); try assumption.
      destruct (users (app w) !! i); [by apply setState_tracks | assumption].
    + destruct open; [assumption | by apply setState_tracks].
    + case_bool_decide; [|assumption]. intros d q.
      destruct (searchUsers_resume_frame r (removeSearch rid w))
        as (-> & _ & _ & -> & _). apply IH.
    + case_bool_decide; [|assumption]. intros d q.
      destruct (fetchAvatarUrls_resume_frame r (removeAvatar rid w))
        as (-> & _ & _ & -> & _). apply IH.
  - intros d q. unfold elapse. cbn.
    destruct (debounceTimeout w) as [[d' q']|] eqn:Ht; [|cbn; by rewrite Ht].
    destruct (d' <=? now w + dt).
    + destruct (searchUsers_frame q' (setTimer None (setNow (now w + dt) w)))
        as (_ & _ & _ & _ & -> & _). discriminate.
    + cbn. rewrite Ht. intros [= <- <-]. exact (IH d' q' Ht).
Qed.

Lemma late_ro_reachable : reachable late_ro.
Proof. repeat (apply reachable_act || apply reachable_elapse || apply reachable_mounted). Qed.

(** C7, as stated, fails: [late_ro] is reachable, its query text [r] is
    shorter than 2 code units, no timer is left to fire, and the results
    of the earlier search are stored and rendered.  (The flag
    [showDropdown] alone can also be true with an empty text, as after a
    click on the search button right after mount.) *)
Lemma C7_counterexample :
  reachable late_ro /\
  (length (query (app late_ro)) < 2)%nat /\
  debounceTimeout late_ro = None /\
  users (app late_ro) = [roblox] /\
  dropdownState (app late_ro) = populated /\
  users (app late_ro) <> [] /\
  showDropdown (app (act clickSearch mounted)) = true /\
  query (app (act clickSearch mounted)) = [].
Proof.
  split; [exact late_ro_reachable|].
  vm_compute. repeat split; [lia | discriminate].
Qed.

(** C7, amended. The dropdown is rendered only while the query text is
    non-empty; and in every reachable state whose query text is shorter
    than 2 code units, the results and the error are cleared when the
    debounce timer fires. *)
Theorem C7_rendered_gate_and_timer_clear :
  (forall s, dropdownState s <> hidden -> query s <> []) /\
  (forall w dt d q,
     reachable w ->
     debounceTimeout w = Some (d, q) ->
     d <= now w + dt ->
     (length (query (app w)) < 2)%nat ->
     users (app (elapse dt w)) = [] /\
     error (app (elapse dt w)) = None /\
     query (app (elapse dt w)) = query (app w)).
Proof.
  split.
  - intros s Hshown Hq. apply Hshown. unfold dropdownState. rewrite Hq. cbn.
    by rewrite andb_false_r.
  - intros w dt d q Hw Ht Hdue Hshort.
    rewrite (elapse_due _ _ _ _ Ht Hdue).
    rewrite (reachable_tracks w Hw d q Ht).
    rewrite (searchUsers_short _ _ Hshort). repeat split.
Qed.

Lemma C7_rendered_gate_and_timer_clear_witness :
  let w := act (onChange (lit "r")) shown_ro in
  users (app w) = [roblox] /\
  users (app (elapse 300 w)) = [] /\
  error (app (elapse 300 w)) = None /\
  query (app (elapse 300 w)) = query (app w).
Proof.
  intros w. split; [vm_compute; reflexivity|].
  destruct C7_rendered_gate_and_timer_clear as [_ Hclear].
  apply (Hclear w 300 1700 (lit "r")).
  - repeat (apply reachable_act || apply reachable_elapse || apply reachable_mounted).
  - vm_compute. reflexivity.
  - vm_compute. discriminate.
  - vm_compute. lia.
Defined.

(** ** Errors and results *)









(** * Further properties *)

(** ** Avatar settlements touch the cache only *)

Lemma avatarSettles_frame (w : World) (rid : nat) (r : settled ThumbnailResponse.t) :
  let w' := act (avatarSettles rid r) w in
  query (app w') = query (app w) /\
  users (app w') = users (app w) /\
  error (app w') = error (app w) /\
  isLoading (app w') = isLoading (app w) /\
  showDropdown (app w') = showDropdown (app w) /\
  selectedUser (app w') = selectedUser (app w) /\
  dropdownState (app w') = dropdownState (app w) /\
  sent w' = sent w /\
  debounceTimeout w' = debounceTimeout w /\
  searchPending w' = searchPending w.
Proof.
  cbn [act]. case_bool_decide; [|repeat split].
  rewrite fetchAvatarUrls_resume_fetched.
  destruct (fetched r); repeat split.
Qed.

(** However an avatar request settles, the query text, the results, the
    error, the loading flag, the dropdown and the selection are unchanged,
    no request is sent and the timer is kept: an avatar failure is never
    shown and never blocks the list.  When the fetch fails, nothing of the
    component state changes at all. *)
Theorem avatar_settlement_changes_cache_only
  (w : World) (rid : nat) (r : settled ThumbnailResponse.t) :
  let w' := act (avatarSettles rid r) w in
  (query (app w') = query (app w) /\
   users (app w') = users (app w) /\
   error (app w') = error (app w) /\
   isLoading (app w') = isLoading (app w) /\
   showDropdown (app w') = showDropdown (app w) /\
   selectedUser (app w') = selectedUser (app w) /\
   dropdownState (app w') = dropdownState (app w) /\
   sent w' = sent w /\
   debounceTimeout w' = debounceTimeout w /\
   searchPending w' = searchPending w) /\
  (fetched r = None -> app w' = app w).
Proof.
  split; [exact (avatarSettles_frame w rid r)|].
  intros Hfail. cbn [act]. case_bool_decide; [|reflexivity].
  by rewrite fetchAvatarUrls_resume_fetched, Hfail.
Qed.

(** ** [handleClickOutside] and the search button *)

(** A mousedown outside the widget hides the dropdown and does nothing
    else: the awaited requests stay awaited, the timer stays set, results
    and error are kept.  A search that answers successfully afterwards
    opens the dropdown again; one that fails leaves it closed. *)
Theorem outside_click_hides_only (w : World) :
  let w' := act mousedownOutside w in
  (showDropdown (app w') = false /\
   dropdownState (app w') = hidden /\
   app w' = setShowDropdown false (app w) /\
   now w' = now w /\
   debounceTimeout w' = debounceTimeout w /\
   sent w' = sent w /\
   searchPending w' = searchPending w /\
   avatarPending w' = avatarPending w) /\
  (forall rid r, rid ∈ searchPending w ->
     showDropdown (app (act (searchSettles rid r) w'))
     = match succeeds r with Some _ => true | None => false end).
Proof.
  cbn zeta. cbn [act]. rewrite setState_same_query by reflexivity. split.
  - repeat split.
  - intros rid r Hrid. cbn [act]. cbn [searchPending update].
    rewrite bool_decide_eq_true_2 by assumption.
    destruct r as [e|status b]; cbn [searchUsers_resume succeeds].
    + destruct e; reflexivity.
    + destruct (ok status); cbn [negb].
      * destruct b as [e|[data]]; [destruct e; reflexivity|].
        destruct data as [[|u l]|]; reflexivity.
      * destruct b; reflexivity.
Qed.

Lemma outside_click_hides_only_witness :
  let w' := act mousedownOutside typed_ro in
  showDropdown
    (app (act (searchSettles 0 (Fulfilled 200 (Json (SearchResponse.mk (Some [roblox]))))) w'))
  = true /\
  showDropdown (app (act (searchSettles 0 (Fulfilled 500 (JsonRejects NonError))) w'))
  = false.
Proof.
  destruct (outside_click_hides_only typed_ro) as [_ Hlater].
  assert (Hpending : 0%nat ∈ searchPending typed_ro).
  { apply (bool_decide_unpack _). vm_compute. reflexivity. }
  split.
  - apply (Hlater 0%nat (Fulfilled 200 (Json (SearchResponse.mk (Some [roblox])))) Hpending).
  - apply (Hlater 0%nat (Fulfilled 500 (JsonRejects NonError)) Hpending).
Defined.

(** The search button only sets [showDropdown]: it sends no request and
    does not touch the timer, the results or the error; with an empty text
    the dropdown stays hidden all the same. *)
Theorem search_button_does_not_search (w : World) :
  let w' := act clickSearch w in
  app w' = setShowDropdown true (app w) /\
  now w' = now w /\
  debounceTimeout w' = debounceTimeout w /\
  sent w' = sent w /\
  searchPending w' = searchPending w /\
  avatarPending w' = avatarPending w /\
  (query (app w) = [] -> dropdownState (app w') = hidden) /\
  (query (app w) <> [] -> dropdownState (app w') <> hidden).
Proof.
  cbn zeta. cbn [act]. rewrite setState_same_query by reflexivity.
  repeat split.
  - intros Hq. unfold dropdownState. cbn. by rewrite Hq.
  - intros Hq. unfold dropdownState. cbn.
    destruct (query (app w)); [done|]. cbn.
    destruct (isLoading (app w)); [done|].
    destruct (truthy (error (app w))); [done|].
    destruct (length (users (app w))); done.
Qed.

(** The dropdown flag is raised by nothing but the search button and a
    successful search response; time passing (a timer firing) never changes
    it. *)
Theorem dropdown_opens_only_by_button_or_success (w : World) :
  (forall a, showDropdown (app w) = false ->
     showDropdown (app (act a w)) = true ->
     a = clickSearch \/
     exists rid r data, a = searchSettles rid r /\ rid ∈ searchPending w /\
                        succeeds r = Some data) /\
  (forall dt, showDropdown (app (elapse dt w)) = showDropdown (app w)).
Proof.
  split.
  - intros a Hoff Hon. destruct a as [v| | |i|open|rid r|rid r]; cbn [act] in Hon.
    + destruct (setState_frame (setQuery v) w) as [Happ _].
      rewrite Happ in Hon. cbn in Hon. congruence.
    + by left.
    + destruct (setState_frame (setShowDropdown false) w) as [Happ _].
      rewrite Happ in Hon. cbn in Hon. congruence.
    + destruct (dropdownState (app w)); try congruence.
      destruct (users (app w) !! i) as [user|]; [|congruence].
      destruct (setState_frame (handleUserClick user) w) as [Happ _].
      rewrite Happ in Hon. cbn in Hon. congruence.
    + destruct open; [congruence|].
      destruct (setState_frame (setSelectedUser None) w) as [Happ _].
      rewrite Happ in Hon. cbn in Hon. congruence.
    + right. case_bool_decide as Hrid; [|congruence].
      exists rid, r. destruct (succeeds r) as [data|] eqn:Hs; [by eauto|].
      exfalso. destruct r as [e|status b]; cbn [searchUsers_resume succeeds] in *.
      * destruct e; cbn in Hon; congruence.
      * destruct (ok status); cbn [negb] in *.
        -- destruct b as [e|d]; [|discriminate]. destruct e; cbn in Hon; congruence.
        -- cbn in Hon. congruence.
    + destruct (avatarSettles_frame w rid r) as (_ & _ & _ & _ & Hsame & _).
      cbn zeta in Hsame. cbn [act] in Hsame. congruence.
  - intros dt. unfold elapse. cbn.
    destruct (debounceTimeout w) as [[d q]|]; [|reflexivity].
    destruct (d <=? now w + dt); [|reflexivity].
    destruct (searchUsers_frame q (setTimer None (setNow (now w + dt) w)))
      as (_ & -> & _). reflexivity.
Qed.

Lemma dropdown_opens_only_by_button_or_success_witness :
  let a := searchSettles 0 (Fulfilled 200 (Json (SearchResponse.mk (Some [roblox])))) in
  a = clickSearch \/
  exists rid r data, a = searchSettles rid r /\ rid ∈ searchPending typed_ro /\
                     succeeds r = Some data.
Proof.
  destruct (dropdown_opens_only_by_button_or_success typed_ro) as [Hopen _].
  apply Hopen; vm_compute; reflexivity.
Defined.

(** ** The loading flag *)

Lemma searchUsers_resume_isLoading r w :
  isLoading (app (searchUsers_resume r w)) = false.
Proof.
  destruct r as [e|status b]; cbn [searchUsers_resume].
  - destruct e; reflexivity.
  - destruct (ok status); cbn [negb]; [|reflexivity].
    destruct b as [e|[data]]; [destruct e; reflexivity|].
    destruct data as [[|u l]|]; reflexivity.
Qed.





(** With overlapping searches the flag falls at the first answer, while
    the other search is still awaited. *)
Example loading_ends_early_when_overlapping :
  let w := act (searchSettles 1 (Rejected (ErrorObj (lit "Failed to fetch"))))
             (elapse 300
                (run [after 1000 (onChange (lit "ro")); after 300 (onChange (lit "rob"))]
                     mounted)) in
  isLoading (app w) = false /\ searchPending w = [0%nat].
Proof. vm_compute. split; reflexivity. Qed.

(** ** What is sent *)

Lemma wellSent_frame w w' :
  sent w' = sent w ->
  (forall rid, rid ∈ searchPending w' -> rid ∈ searchPending w) ->
  (forall rid, rid ∈ avatarPending w' -> rid ∈ avatarPending w) ->
  wellSent w -> wellSent w'.
Proof.
  intros Hs Hsp Hap (Hall & Hsearch & Havatar). unfold wellSent. rewrite Hs.
  split; [exact Hall|]. split; intros rid Hrid; auto.
Qed.

Lemma isSearchRequest_not_avatar r : isSearchRequest r -> isAvatarRequest r -> False.
Proof. intros (q & k & _ & _ & ->) (ids & _ & [=]). Qed.

Lemma wellSent_fetchSearch r w :
  isSearchRequest r -> wellSent w -> wellSent (fetchSearch r w).
Proof.
  intros Hr (Hall & Hsearch & Havatar). unfold wellSent. cbn. split; [|split].
  - apply Forall_app. split; [exact Hall|]. constructor; [by left | constructor].
  - intros rid [Hrid|Hrid]%elem_of_app.
    + destruct (Hsearch rid Hrid) as (r' & Hl & Hr'). exists r'.
      split; [|exact Hr']. by apply lookup_app_l_Some.
    + apply list_elem_of_singleton in Hrid as ->. exists r.
      split; [|exact Hr]. by rewrite list_lookup_middle.
  - intros rid Hrid. destruct (Havatar rid Hrid) as (r' & Hl & Hr'). exists r'.
    split; [|exact Hr']. by apply lookup_app_l_Some.
Qed.

Lemma wellSent_fetchAvatar r w :
  isAvatarRequest r -> wellSent w -> wellSent (fetchAvatar r w).
Proof.
  intros Hr (Hall & Hsearch & Havatar). unfold wellSent. cbn. split; [|split].
  - apply Forall_app. split; [exact Hall|]. constructor; [by right | constructor].
  - intros rid Hrid. destruct (Hsearch rid Hrid) as (r' & Hl & Hr'). exists r'.
    split; [|exact Hr']. by apply lookup_app_l_Some.
  - intros rid [Hrid|Hrid]%elem_of_app.
    + destruct (Havatar rid Hrid) as (r' & Hl & Hr'). exists r'.
      split; [|exact Hr']. by apply lookup_app_l_Some.
    + apply list_elem_of_singleton in Hrid as ->. exists r.
      split; [|exact Hr]. by rewrite list_lookup_middle.
Qed.

Lemma wellSent_searchUsers q w : wellSent w -> wellSent (searchUsers q w).
Proof.
  intros Hw. unfold searchUsers.
  destruct (Nat.ltb_spec (length q) 2); [exact Hw|].
  destruct (encodeURIComponent q) as [k|e] eqn:Henc; [|exact Hw].
  apply (wellSent_fetchSearch (searchRequest k)
           (update (λ s, setError None (setIsLoading true s)) w)); [|exact Hw].
  exists q, k. auto.
Qed.

Lemma wellSent_searchUsers_resume r w :
  wellSent w -> wellSent (searchUsers_resume r w).
Proof.
  intros Hw. destruct r as [e|status b]; cbn [searchUsers_resume]; [exact Hw|].
  destruct (ok status); cbn [negb]; [|exact Hw].
  destruct b as [e|[data]]; [exact Hw|].
  destruct data as [[|u l]|]; cbn [SearchResponse.data]; try exact Hw.
  apply (wellSent_fetchAvatar (avatarRequest (map RobloxUser.id (u :: l)))
           (update (setUsers (u :: l)) w)); [|exact Hw].
  by exists (map RobloxUser.id (u :: l)).
Qed.

Lemma reachable_wellSent w : reachable w -> wellSent w.
Proof.
  induction 1 as [|a w Hw IH|dt w Hw IH].
  - split; [constructor|]. split; intros rid Hrid; by apply elem_of_nil in Hrid.
  - assert (Hset : forall f, wellSent (setState f w)).
    { intros f. destruct (setState_frame f w) as (_ & _ & Hs & Hsp & Hap).
      apply (wellSent_frame w); [exact Hs | by rewrite Hsp | by rewrite Hap | exact IH]. }
    destruct a as [v| | |i|open|rid r|rid r]; cbn [act]; try apply Hset.
    + destruct (dropdownState (app w)); try exact IH.
      destruct (users (app w) !! i); [apply Hset | exact IH].
    + destruct open; [exact IH | apply Hset].
    + case_bool_decide; [|exact IH]. apply wellSent_searchUsers_resume.
      apply (wellSent_frame w); [reflexivity | | done | exact IH].
      intros n Hn. cbn in Hn. by apply list_elem_of_filter in Hn as [_ ?].
    + case_bool_decide; [|exact IH]. rewrite fetchAvatarUrls_resume_fetched.
      assert (Hrm : wellSent (removeAvatar rid w)).
      { apply (wellSent_frame w); [reflexivity | done | | exact IH].
        intros n Hn. cbn in Hn. by apply list_elem_of_filter in Hn as [_ ?]. }
      destruct (fetched r); exact Hrm.
  - unfold elapse. cbn.
    destruct (debounceTimeout w) as [[d q]|]; [|exact IH].
    destruct (d <=? now w + dt); [|exact IH].
    apply wellSent_searchUsers. exact IH.
Qed.

(** Whatever the user does and however requests settle, every request the
    program has sent is either a search for a text of at least 2 code units
    (its URL built from the encoded text) or an avatar batch for at least
    one id; and every request still awaited is one of those sent, of the
    kind its continuation expects. *)
Theorem only_searches_and_avatar_batches_are_sent (w : World) :
  reachable w ->
  Forall (λ r, isSearchRequest r \/ isAvatarRequest r) (sent w) /\
  (forall rid, rid ∈ searchPending w ->
     exists r, sent w !! rid = Some r /\ isSearchRequest r) /\
  (forall rid, rid ∈ avatarPending w ->
     exists r, sent w !! rid = Some r /\ isAvatarRequest r).
Proof. exact (reachable_wellSent w). Qed.

Lemma only_searches_and_avatar_batches_are_sent_witness :
  Forall (λ r, isSearchRequest r \/ isAvatarRequest r) (sent shown_ro) /\
  (forall rid, rid ∈ searchPending shown_ro ->
     exists r, sent shown_ro !! rid = Some r /\ isSearchRequest r) /\
  (forall rid, rid ∈ avatarPending shown_ro ->
     exists r, sent shown_ro !! rid = Some r /\ isAvatarRequest r).
Proof.
  apply (only_searches_and_avatar_batches_are_sent shown_ro).
  repeat (apply reachable_act || apply reachable_elapse || apply reachable_mounted).
Defined.

(** ** The timer and the text it searches for *)

Lemma reachable_timerSoon w : reachable w -> timerSoon w.
Proof.
  induction 1 as [|a w Hw IH|dt w Hw IH].
  - intros d q [= <- _]. cbn. lia.
  - assert (Hset : forall f, timerSoon (setState f w)).
    { intros f d q. unfold setState, useEffect_query. cbn.
      case_bool_decide; cbn; [apply IH|]. intros [= <- _]. lia. }
    destruct a as [v| | |i|open|rid r|rid r]; cbn [act]; try apply Hset.
    + destruct (dropdownState (app w)); try exact IH.
      destruct (users (app w) !! i); [apply Hset | exact IH].
    + destruct open; [exact IH | apply Hset].
    + case_bool_decide; [|exact IH]. intros d q.
      destruct (searchUsers_resume_frame r (removeSearch rid w))
        as (_ & _ & -> & -> & _). apply IH.
    + case_bool_decide; [|exact IH]. rewrite fetchAvatarUrls_resume_fetched.
      destruct (fetched r); exact IH.
  - intros d q. unfold elapse. cbn.
    destruct (debounceTimeout w) as [[d' q']|] eqn:Ht; [|cbn; by rewrite Ht].
    destruct (N.leb_spec d' (now w + dt)).
    + destruct (searchUsers_frame q' (setTimer None (setNow (now w + dt) w)))
        as (_ & _ & _ & _ & -> & _). discriminate.
    + cbn. rewrite Ht. intros [= <- <-]. specialize (IH d' q' Ht). lia.
Qed.

(** In every reachable state, letting time pass either changes nothing
    but the clock or runs [searchUsers] once, with the text that is in the
    input at that moment and never with an older one; and after 300 ms no
    timer is left. *)
Theorem timer_searches_current_text (w : World) (dt : N) :
  reachable w ->
  (elapse dt w = setNow (now w + dt) w \/
   elapse dt w = searchUsers (query (app w)) (setTimer None (setNow (now w + dt) w))) /\
  (300 <= dt -> debounceTimeout (elapse dt w) = None).
Proof.
  intros Hw.
  destruct (debounceTimeout w) as [[d q]|] eqn:Ht.
  - pose proof (reachable_tracks w Hw d q Ht) as ->.
    pose proof (reachable_timerSoon w Hw d _ Ht) as Hsoon.
    destruct (N.le_gt_cases d (now w + dt)) as [Hdue|Hnot].
    + rewrite (elapse_due _ _ _ _ Ht Hdue). split; [by right|]. intros _.
      by destruct (searchUsers_frame (query (app w)) (setTimer None (setNow (now w + dt) w)))
        as (_ & _ & _ & _ & -> & _).
    + rewrite (elapse_not_due _ _ _ _ Ht Hnot). split; [by left|]. lia.
  - rewrite (elapse_idle _ _ Ht). split; [by left|]. intros _. exact Ht.
Qed.

Lemma timer_searches_current_text_witness :
  let w := act (onChange (lit "ro")) mounted in
  (elapse 300 w = setNow (now w + 300) w \/
   elapse 300 w = searchUsers (query (app w)) (setTimer None (setNow (now w + 300) w))) /\
  (300 <= 300 -> debounceTimeout (elapse 300 w) = None).
Proof.
  apply (timer_searches_current_text (act (onChange (lit "ro")) mounted) 300).
  repeat (apply reachable_act || apply reachable_elapse || apply reachable_mounted).
Defined.

(** ** After a selection *)

Lemma populated_query s : dropdownState s = populated -> query s <> [].
Proof.
  unfold dropdownState. intros H Hq. rewrite Hq in H. cbn in H.
  by rewrite andb_false_r in H.
Qed.

(** Selecting a row sends nothing and keeps the results for the moment;
    since it empties the text, the timer is set anew, and 300 ms later the
    results and the error are cleared, still without any request.  The
    selection itself stays. *)
Theorem selection_clears_results_after_quiet_period
  (w : World) (i : nat) (user : RobloxUser.t) :
  dropdownState (app w) = populated ->
  users (app w) !! i = Some user ->
  let w1 := act (clickUser i) w in
  (sent w1 = sent w /\ users (app w1) = users (app w) /\
   avatarUrls (app w1) = avatarUrls (app w) /\
   debounceTimeout w1 = Some (now w + 300, [])) /\
  (forall dt, 300 <= dt ->
     users (app (elapse dt w1)) = [] /\
     error (app (elapse dt w1)) = None /\
     selectedUser (app (elapse dt w1)) = Some user /\
     query (app (elapse dt w1)) = [] /\
     sent (elapse dt w1) = sent w /\
     searchPending (elapse dt w1) = searchPending w).
Proof.
  intros Hpop Hrow w1. subst w1. cbn [act]. rewrite Hpop, Hrow.
  rewrite setState_new_query
    by (cbn; intros Heq; by apply (populated_query _ Hpop)).
  split; [repeat split|].
  intros dt Hdt. erewrite elapse_due; [| reflexivity | cbn; lia].
  rewrite searchUsers_short by (cbn; lia). repeat split.
Qed.

Lemma selection_clears_results_after_quiet_period_witness :
  let w1 := act (clickUser 0) shown_ro in
  (sent w1 = sent shown_ro /\ users (app w1) = users (app shown_ro) /\
   avatarUrls (app w1) = avatarUrls (app shown_ro) /\
   debounceTimeout w1 = Some (now shown_ro + 300, [])) /\
  (forall dt, 300 <= dt ->
     users (app (elapse dt w1)) = [] /\
     error (app (elapse dt w1)) = None /\
     selectedUser (app (elapse dt w1)) = Some roblox /\
     query (app (elapse dt w1)) = [] /\
     sent (elapse dt w1) = sent shown_ro /\
     searchPending (elapse dt w1) = searchPending shown_ro).
Proof.
  apply (selection_clears_results_after_quiet_period shown_ro 0 roblox);
    vm_compute; reflexivity.
Defined.

(** ** What the dropdown shows after each outcome *)

(** When the timer fires for a text of at least 2 code units that can be
    encoded, the request goes out, the loading flag is set and a stored
    error is dropped, while the results of the earlier search are kept; an
    open dropdown shows the loading state. *)
Theorem dispatch_shows_loading (w : World) (dt d : N) (q keyword : jsstring) :
  reachable w ->
  debounceTimeout w = Some (d, q) ->
  d <= now w + dt ->
  (2 <= length q)%nat ->
  encodeURIComponent q = Normal keyword ->
  let w' := elapse dt w in
  sent w' = sent w ++ [searchRequest keyword] /\
  searchPending w' = searchPending w ++ [length (sent w)] /\
  isLoading (app w') = true /\
  error (app w') = None /\
  users (app w') = users (app w) /\
  (showDropdown (app w) = true -> dropdownState (app w') = loading).
Proof.
  intros Hw Ht Hdue Hlen Henc w'. subst w'.
  rewrite (elapse_due _ _ _ _ Ht Hdue).
  pose proof (reachable_tracks w Hw d q Ht) as Hq.
  unfold searchUsers. rewrite Henc.
  destruct (Nat.ltb_spec (length q) 2); [lia|]. cbn.
  repeat split. intros Hshow. unfold dropdownState. cbn. rewrite Hshow, <- Hq.
  destruct q; [cbn in Hlen; lia | reflexivity].
Qed.

Lemma dispatch_shows_loading_witness :
  let w := act clickSearch (act (onChange (lit "rob")) shown_ro) in
  sent (elapse 300 w) = sent w ++ [searchRequest (lit "rob")] /\
  searchPending (elapse 300 w) = searchPending w ++ [length (sent w)] /\
  isLoading (app (elapse 300 w)) = true /\
  error (app (elapse 300 w)) = None /\
  users (app (elapse 300 w)) = users (app w) /\
  (showDropdown (app w) = true -> dropdownState (app (elapse 300 w)) = loading).
Proof.
  apply (dispatch_shows_loading
           (act clickSearch (act (onChange (lit "rob")) shown_ro)) 300 1700
           (lit "rob") (lit "rob")).
  - repeat (apply reachable_act || apply reachable_elapse || apply reachable_mounted).
  - vm_compute. reflexivity.
  - vm_compute. discriminate.
  - vm_compute. lia.
  - vm_compute. reflexivity.
Defined.

Lemma encodeURIComponent_throws s e : encodeURIComponent s = Throw e -> e = URIError.
Proof.
  assert (Hpre : forall (x : jsstring) r, prepend x r = Throw e -> r = Throw e).
  { intros x [k|e']; cbn; [discriminate | by intros [= ->]]. }
  assert (Hn : forall n s, (length s <= n)%nat ->
                           encodeURIComponent s = Throw e -> e = URIError).
  { clear s. induction n as [|n IH]; intros s Hlen Henc.
    { destruct s; [discriminate | cbn in Hlen; lia]. }
    destruct s as [|c rest]; [discriminate|]. cbn in Hlen.
    cbn [encodeURIComponent] in Henc.
    destruct (uriUnreserved c).
    { apply Hpre in Henc. apply (IH rest); [lia | exact Henc]. }
    destruct (isLeadingSurrogate c).
    { destruct rest as [|c' rest']; [by injection Henc|].
      destruct (isTrailingSurrogate c'); [|by injection Henc].
      apply Hpre in Henc. cbn in Hlen. apply (IH rest'); [lia | exact Henc]. }
    destruct (isTrailingSurrogate c); [by injection Henc|].
    apply Hpre in Henc. apply (IH rest); [lia | exact Henc]. }
  apply (Hn (length s) s). lia.
Qed.

(** A text of at least 2 code units that cannot be encoded (it holds a
    lone surrogate) is never sent: the run of [searchUsers] ends in its
    [catch], which stores the message of the error thrown by
    [encodeURIComponent], empties the results and ends loading. *)
Theorem unencodable_text_is_an_error (w : World) (q : jsstring) (e : thrown) :
  (2 <= length q)%nat ->
  encodeURIComponent q = Throw e ->
  let w' := searchUsers q w in
  e = URIError /\
  (exists message, e = ErrorObj message /\ error (app w') = Some message) /\
  users (app w') = [] /\
  isLoading (app w') = false /\
  showDropdown (app w') = showDropdown (app w) /\
  sent w' = sent w /\
  searchPending w' = searchPending w.
Proof.
  intros Hlen Henc w'. subst w'.
  pose proof (encodeURIComponent_throws q e Henc) as ->.
  unfold searchUsers. rewrite Henc.
  destruct (Nat.ltb_spec (length q) 2); [lia|].
  split; [reflexivity|]. split; [|repeat split].
  eexists. split; reflexivity.
Qed.

Lemma unencodable_text_is_an_error_witness :
  let w' := searchUsers [97; 0xD83D] shown_ro in
  URIError = URIError /\
  (exists message, URIError = ErrorObj message /\ error (app w') = Some message) /\
  users (app w') = [] /\
  isLoading (app w') = false /\
  showDropdown (app w') = showDropdown (app shown_ro) /\
  sent w' = sent shown_ro /\
  searchPending w' = searchPending shown_ro.
Proof.
  apply (unencodable_text_is_an_error shown_ro [97; 0xD83D] URIError).
  - vm_compute. lia.
  - vm_compute. reflexivity.
Defined.

(** The message the [catch] stores for a transport failure. *)
Lemma failure_message (r : settled SearchResponse.t) w :
  transportFailure r = true ->
  error (app (searchUsers_resume r w))
  = Some match r with
         | Rejected (ErrorObj message) => message
         | Rejected NonError => lit "An unknown error occurred"
         | Fulfilled status _ => lit "HTTP error! status: " ++ N_toString status
         end.
Proof.
  destruct r as [[m|]|status b]; cbn [transportFailure searchUsers_resume];
    [reflexivity | reflexivity |].
  intros ->. reflexivity.
Qed.

(** A search that fails while the dropdown is open, under a non-empty
    text, stores the message of what was thrown ([HTTP error! status: ]
    and the status for a non-2xx answer) and puts the dropdown in the error
    state; but a rejection by an [Error] whose message is empty is rendered
    as an empty result list. *)
Theorem failure_with_open_dropdown_shows_error
  (w : World) (rid : nat) (r : settled SearchResponse.t) :
  rid ∈ searchPending w ->
  showDropdown (app w) = true ->
  query (app w) <> [] ->
  transportFailure r = true ->
  let w' := act (searchSettles rid r) w in
  error (app w')
  = Some match r with
         | Rejected (ErrorObj message) => message
         | Rejected NonError => lit "An unknown error occurred"
         | Fulfilled status _ => lit "HTTP error! status: " ++ N_toString status
         end /\
  dropdownState (app w')
  = match r with Rejected (ErrorObj []) => empty | _ => errored end.
Proof.
  intros Hrid Hshow Hq Hfail w'. subst w'. cbn [act].
  rewrite bool_decide_eq_true_2 by assumption.
  split; [exact (failure_message r _ Hfail)|].
  unfold dropdownState.
  destruct (searchUsers_resume_frame r (removeSearch rid w)) as (-> & _).
  rewrite searchUsers_resume_isLoading, (failure_message r _ Hfail).
  assert (Hs : showDropdown (app (searchUsers_resume r (removeSearch rid w))) = true).
  { destruct (failed_search_keeps_showDropdown (removeSearch rid w) r Hfail) as [-> _].
    exact Hshow. }
  assert (Hu : users (app (searchUsers_resume r (removeSearch rid w))) = []).
  { apply (failed_search_keeps_showDropdown (removeSearch rid w) r Hfail). }
  rewrite Hs, Hu. cbn [removeSearch app].
  destruct (query (app w)); [done|].
  destruct r as [[[|c m]|]|status b]; reflexivity.
Qed.

Lemma failure_with_open_dropdown_shows_error_witness :
  let w' := act (searchSettles 0 (Fulfilled 503 (JsonRejects NonError)))
              (act clickSearch typed_ro) in
  error (app w') = Some (lit "HTTP error! status: " ++ N_toString 503) /\
  dropdownState (app w') = errored.
Proof.
  apply (failure_with_open_dropdown_shows_error (act clickSearch typed_ro) 0
           (Fulfilled 503 (JsonRejects NonError))).
  - apply (bool_decide_unpack _). vm_compute. reflexivity.
  - vm_compute. reflexivity.
  - vm_compute. discriminate.
  - vm_compute. reflexivity.
Defined.

(** A successful search response without profiles ([data] empty or
    absent) leaves the dropdown in the empty state, provided the text is
    not empty and no error is shown at that moment. *)
Theorem empty_response_shows_no_users
  (w : World) (rid : nat) (status : N) (data : option (list RobloxUser.t)) :
  rid ∈ searchPending w ->
  ok status = true ->
  default [] data = [] ->
  query (app w) <> [] ->
  truthy (error (app w)) = false ->
  let w' := act (searchSettles rid (Fulfilled status (Json (SearchResponse.mk data)))) w in
  dropdownState (app w') = empty /\ rows (app w') = [] /\ sent w' = sent w.
Proof.
  intros Hrid Hok Hdata Hq Herr w'. subst w'. cbn [act].
  rewrite bool_decide_eq_true_2 by assumption.
  cbn [searchUsers_resume]. rewrite Hok. cbn [negb].
  destruct data as [[|u l]|]; [| discriminate |];
    unfold rows, dropdownState; cbn; rewrite Herr;
    (destruct (query (app w)); [done | repeat split]).
Qed.

Lemma empty_response_shows_no_users_witness :
  let w' := act (searchSettles 0 (Fulfilled 200 (Json (SearchResponse.mk None))))
              typed_ro in
  dropdownState (app w') = empty /\ rows (app w') = [] /\ sent w' = sent typed_ro.
Proof.
  apply (empty_response_shows_no_users typed_ro 0 200 None).
  - apply (bool_decide_unpack _). vm_compute. reflexivity.
  - vm_compute. reflexivity.
  - reflexivity.
  - vm_compute. discriminate.
  - vm_compute. reflexivity.
Defined.

(** ** Responses out of order *)

(** Of two awaited searches, the one that answers last decides the
    results, whichever was sent first: a late answer to the older text
    replaces the results of the newer one. *)
Theorem last_response_wins
  (w : World) (first second : nat) (r1 r2 : settled SearchResponse.t)
  (data1 data2 : list RobloxUser.t) :
  first ∈ searchPending w ->
  second ∈ searchPending w ->
  first <> second ->
  succeeds r1 = Some data1 ->
  succeeds r2 = Some data2 ->
  let w' := act (searchSettles second r2) (act (searchSettles first r1) w) in
  users (app w') = data2 /\
  error (app w') = error (app w) /\
  query (app w') = query (app w).
Proof.
  intros H1 H2 Hne Hs1 Hs2 w'. subst w'.
  assert (Hok : forall (r : settled SearchResponse.t) data w0,
            succeeds r = Some data ->
            users (app (searchUsers_resume r w0)) = data /\
            error (app (searchUsers_resume r w0)) = error (app w0)).
  { intros r data w0 Hs. destruct r as [e|status [e|[d]]]; try discriminate.
    cbn [succeeds searchUsers_resume] in *.
    destruct (ok status); [|discriminate]. injection Hs as <-. cbn [negb].
    destruct d as [[|u l]|]; split; reflexivity. }
  cbn [act]. rewrite (bool_decide_eq_true_2 _ H1).
  assert (H2' : second ∈ searchPending (searchUsers_resume r1 (removeSearch first w))).
  { destruct (searchUsers_resume_frame r1 (removeSearch first w)) as (_ & _ & _ & _ & ->).
    cbn. apply list_elem_of_filter. split; [congruence | exact H2]. }
  rewrite (bool_decide_eq_true_2 _ H2').
  destruct (Hok r2 data2 (removeSearch second (searchUsers_resume r1 (removeSearch first w))) Hs2)
    as [-> ->].
  split; [reflexivity|]. cbn [removeSearch app].
  destruct (Hok r1 data1 (removeSearch first w) Hs1) as [_ ->].
  destruct (searchUsers_resume_frame r2
              (removeSearch second (searchUsers_resume r1 (removeSearch first w))))
    as (-> & _).
  destruct (searchUsers_resume_frame r1 (removeSearch first w)) as (Hq & _).
  cbn [removeSearch app]. rewrite Hq. split; reflexivity.
Qed.

Lemma last_response_wins_witness :
  let newer := Fulfilled 200 (Json (SearchResponse.mk (Some [builderman]))) in
  let older := Fulfilled 200 (Json (SearchResponse.mk (Some [roblox]))) in
  let w' := act (searchSettles 0 older) (act (searchSettles 1 newer) overlapping_ro) in
  users (app w') = [roblox] /\
  error (app w') = error (app overlapping_ro) /\
  query (app w') = query (app overlapping_ro).
Proof.
  apply (last_response_wins overlapping_ro 1 0 _ _ [builderman] [roblox]).
  - apply (bool_decide_unpack _). vm_compute. reflexivity.
  - apply (bool_decide_unpack _). vm_compute. reflexivity.
  - discriminate.
  - vm_compute. reflexivity.
  - vm_compute. reflexivity.
Defined.

(** ** Avatars on screen *)

(** After a successful avatar fetch, the row (and the modal) of a user
    whose id was returned shows the URL returned last for that id, or the
    placeholder when that URL is empty; the rows of users whose id was not
    returned are unchanged; a failed fetch changes no row; and a user whose
    id is not in the cache is shown with the placeholder. *)
Theorem avatar_shown_after_fetch (w : World) (rid : nat) (r : settled ThumbnailResponse.t) :
  rid ∈ avatarPending w ->
  let w' := act (avatarSettles rid r) w in
  match fetched r with
  | Some items =>
    (forall l1 item l2 user,
       items = l1 ++ item :: l2 ->
       Forall (λ x, Thumbnail.targetId x <> Thumbnail.targetId item) l2 ->
       RobloxUser.id user = Thumbnail.targetId item ->
       src (renderRow (app w') user)
       = match Thumbnail.imageUrl item with [] => placeholder | u => u end) /\
    (forall user,
       Forall (λ x, Thumbnail.targetId x <> RobloxUser.id user) items ->
       renderRow (app w') user = renderRow (app w) user)
  | None => forall user, renderRow (app w') user = renderRow (app w) user
  end /\
  (forall user, avatarUrls (app w) !! RobloxUser.id user = None ->
     src (renderRow (app w) user) = placeholder).
Proof.
  intros Hrid w'. subst w'. split.
  - cbn [act]. rewrite bool_decide_eq_true_2 by assumption.
    rewrite fetchAvatarUrls_resume_fetched.
    destruct (fetched r) as [items|]; [|reflexivity]. split.
    + intros l1 item l2 user -> Hlast Hid. cbn. unfold avatarSrc. rewrite Hid.
      rewrite (lookup_union_Some_l _ _ _ _ (newUrls_last l1 item l2 Hlast)).
      by destruct (Thumbnail.imageUrl item).
    + intros user Hno. unfold renderRow. cbn. unfold avatarSrc.
      rewrite lookup_union_r by (by apply newUrls_other). reflexivity.
  - intros user Hnone. cbn. unfold avatarSrc. by rewrite Hnone.
Qed.

Lemma avatar_shown_after_fetch_witness :
  let r := Fulfilled 200 (Json (ThumbnailResponse.mk (Some [roblox_thumbnail]))) in
  src (renderRow (app (act (avatarSettles 1 r) shown_ro)) roblox)
  = lit "https://tr.rbxcdn.com/1.png" /\
  renderRow (app (act (avatarSettles 1 r) shown_ro)) builderman
  = renderRow (app shown_ro) builderman /\
  src (renderRow (app shown_ro) roblox) = placeholder.
Proof.
  intros r.
  assert (Hpending : 1%nat ∈ avatarPending shown_ro).
  { apply (bool_decide_unpack _). vm_compute. reflexivity. }
  destruct (avatar_shown_after_fetch shown_ro 1 r Hpending) as [[Hshown Hother] Hmissing].
  split; [|split].
  - apply (Hshown [] roblox_thumbnail [] roblox); [reflexivity | constructor | reflexivity].
  - apply Hother. repeat constructor. discriminate.
  - apply Hmissing. vm_compute. reflexivity.
Defined.

(** ** Numbers in URLs *)

Lemma lit_inj s1 s2 : lit s1 = lit s2 -> s1 = s2.
Proof.
  revert s2. induction s1 as [|a s1 IH]; intros [|b s2]; cbn; try discriminate;
    [reflexivity|].
  intros [= Hab Hs]. f_equal; [|by apply IH].
  rewrite <- (ascii_N_embedding a), <- (ascii_N_embedding b). by rewrite Hab.
Qed.

Lemma Z_toString_inj a b : Z_toString a = Z_toString b -> a = b.
Proof.
  intros H%lit_inj.
  assert (Hnn : forall z, Z.to_int z <> Decimal.Pos Decimal.Nil /\
                          Z.to_int z <> Decimal.Neg Decimal.Nil).
  { intros [|p|p]; cbn; split; try discriminate; intros [= Hp];
      by apply DecimalPos.Unsigned.to_uint_nonnil in Hp. }
  assert (Hint : Some (Z.to_int a) = Some (Z.to_int b)).
  { rewrite <- (NilZero.isi (Z.to_int a)), <- (NilZero.isi (Z.to_int b));
      try apply Hnn. by rewrite H. }
  injection Hint as Hint.
  rewrite <- (DecimalZ.of_to a), <- (DecimalZ.of_to b). by rewrite Hint.
Qed.

Lemma string_of_uint_digits d :
  Forall (λ c, c <> 44) (lit (NilEmpty.string_of_uint d)).
Proof. induction d; cbn; constructor; (discriminate || assumption). Qed.

Lemma Z_toString_no_comma z : Z_toString z <> [] /\ Forall (λ c, c <> 44) (Z_toString z).
Proof.
  unfold Z_toString.
  assert (Hu : forall d, lit (NilZero.string_of_uint d) <> [] /\
                         Forall (λ c, c <> 44) (lit (NilZero.string_of_uint d))).
  { intros d. split.
    - destruct d; cbn; discriminate.
    - destruct d; try apply string_of_uint_digits. repeat constructor. discriminate. }
  destruct (Z.to_int z) as [d|d]; cbn [NilZero.string_of_int]; [apply Hu|].
  split; [cbn; discriminate|]. cbn. constructor; [discriminate | apply Hu].
Qed.

Lemma split_at_comma (x : jsstring) : forall x' t t',
  Forall (λ c, c <> 44) x -> Forall (λ c, c <> 44) x' ->
  x ++ 44 :: t = x' ++ 44 :: t' -> x = x' /\ t = t'.
Proof.
  induction x as [|c x IH]; intros [|c' x'] t t' Hx Hx' Heq; cbn in Heq.
  - by injection Heq.
  - injection Heq as <- _. by apply Forall_cons in Hx' as [? _].
  - injection Heq as -> _. by apply Forall_cons in Hx as [? _].
  - injection Heq as -> Heq.
    apply Forall_cons in Hx as [_ Hx]. apply Forall_cons in Hx' as [_ Hx'].
    destruct (IH x' t t' Hx Hx' Heq) as [-> ->]. done.
Qed.

Lemma join_comma_inj (l : list jsstring) : forall l',
  Forall (λ x, x <> [] /\ Forall (λ c, c <> 44) x) l ->
  Forall (λ x, x <> [] /\ Forall (λ c, c <> 44) x) l' ->
  join (lit ",") l = join (lit ",") l' -> l = l'.
Proof.
  assert (Hcomma : forall (x : jsstring) y t,
            Forall (λ c, c <> 44) x -> x = y ++ 44 :: t -> False).
  { intros x y t Hx ->. apply Forall_app in Hx as [_ Hx].
    by apply Forall_cons in Hx as [? _]. }
  induction l as [|x [|y l] IH]; intros [|x' [|y' l']] Hl Hl' Heq;
    try reflexivity.
  - apply Forall_cons in Hl' as [[Hx' _] _]. cbn in Heq. congruence.
  - apply Forall_cons in Hl' as [[Hx' _] _]. cbn in Heq.
    destruct x'; [done | discriminate].
  - apply Forall_cons in Hl as [[Hx _] _]. cbn in Heq. congruence.
  - cbn in Heq. by rewrite Heq.
  - apply Forall_cons in Hl as [[_ Hx] _]. exfalso.
    apply (Hcomma x x' (join (lit ",") (y' :: l')) Hx). exact Heq.
  - apply Forall_cons in Hl as [[Hx _] _]. cbn in Heq.
    destruct x; [done | discriminate].
  - apply Forall_cons in Hl' as [[_ Hx'] _]. exfalso.
    apply (Hcomma x' x (join (lit ",") (y :: l)) Hx'). symmetry. exact Heq.
  - apply Forall_cons in Hl as [[_ Hx] Hl]. apply Forall_cons in Hl' as [[_ Hx'] Hl'].
    change (x ++ 44 :: join (lit ",") (y :: l) = x' ++ 44 :: join (lit ",") (y' :: l'))
      in Heq.
    destruct (split_at_comma x x' _ _ Hx Hx' Heq) as [-> Hrest].
    f_equal. by apply IH.
Qed.

(** The profile link of the modal names the user: two ids have the same
    link only if they are equal. *)
Theorem profile_link_identifies_user (a b : Z) :
  profileLink a = profileLink b <-> a = b.
Proof.
  split; [|by intros ->]. unfold profileLink. intros H.
  apply app_inv_head, app_inv_tail in H. by apply Z_toString_inj.
Qed.

(** The URL of an avatar request determines the ids asked for, in their
    order: the ids are printed in decimal and joined by commas, and nothing
    is dropped or merged. *)
Theorem avatar_request_identifies_ids (userIds userIds' : list Z) :
  avatarRequest userIds = avatarRequest userIds' <-> userIds = userIds'.
Proof.
  split; [|by intros ->]. unfold avatarRequest. intros H.
  apply (f_equal url) in H. cbn [url] in H.
  apply app_inv_head, app_inv_tail in H.
  assert (Hwf : forall ids, Forall (λ x : jsstring, x <> [] /\ Forall (λ c, c <> 44) x)
                                   (map Z_toString ids)).
  { intros ids. induction ids; constructor; [apply Z_toString_no_comma | assumption]. }
  apply join_comma_inj in H; [|apply Hwf..].
  revert userIds' H. induction userIds as [|a l IH]; intros [|b l'] H;
    cbn in H; try discriminate; [reflexivity|].
  injection H as Hab Hl. f_equal; [by apply Z_toString_inj | by apply IH].
Qed.

(** ** The encoded keyword determines the text *)

Ltac div_lia := zify; Z.to_euclidean_division_equations; lia.

Lemma lor_add_small (a bound x : N) :
  forallb (λ y, N.lor a y =? a + y) (N.of_nat <$> seq 0 (N.to_nat bound)) = true ->
  x < bound -> N.lor a x = a + x.
Proof.
  intros Hall Hx. rewrite forallb_forall in Hall.
  apply N.eqb_eq, Hall, list_elem_of_In, list_elem_of_fmap.
  exists (N.to_nat x). split; [lia|]. apply elem_of_seq. lia.
Qed.

Lemma lor_0x80 x : x < 64 -> N.lor 0x80 x = 0x80 + x.
Proof. apply lor_add_small. vm_compute. reflexivity. Qed.

Lemma lor_0xC0 x : x < 32 -> N.lor 0xC0 x = 0xC0 + x.
Proof. apply lor_add_small. vm_compute. reflexivity. Qed.

Lemma lor_0xE0 x : x < 16 -> N.lor 0xE0 x = 0xE0 + x.
Proof. apply lor_add_small. vm_compute. reflexivity. Qed.

Lemma lor_0xF0 x : x < 8 -> N.lor 0xF0 x = 0xF0 + x.
Proof. apply lor_add_small. vm_compute. reflexivity. Qed.

(** The octets of [utf8] in arithmetic. *)
Lemma utf8_arith cp :
  cp < 0x200000 ->
  utf8 cp
  = if cp <? 0x80 then [cp]
    else if cp <? 0x800 then [0xC0 + cp / 64; 0x80 + cp mod 64]
    else if cp <? 0x10000 then
      [0xE0 + cp / 4096; 0x80 + (cp / 64) mod 64; 0x80 + cp mod 64]
    else
      [0xF0 + cp / 262144; 0x80 + (cp / 4096) mod 64;
       0x80 + (cp / 64) mod 64; 0x80 + cp mod 64].
Proof.
  intros Hcp. unfold utf8.
  assert (Hland : forall a, N.lor 0x80 (N.land a 0x3F) = 0x80 + a mod 64).
  { intros a. change 0x3F with (N.ones 6). rewrite N.land_ones.
    apply lor_0x80. change (2 ^ 6) with 64. div_lia. }
  rewrite !Hland, !N.shiftr_div_pow2.
  change (2 ^ 6) with 64. change (2 ^ 12) with 4096. change (2 ^ 18) with 262144.
  destruct (N.ltb_spec cp 0x80); [reflexivity|].
  destruct (N.ltb_spec cp 0x800); [by rewrite lor_0xC0 by div_lia|].
  destruct (N.ltb_spec cp 0x10000); [by rewrite lor_0xE0 by div_lia|].
  by rewrite lor_0xF0 by div_lia.
Qed.

Lemma hexDigit_inj d1 d2 : d1 < 16 -> d2 < 16 -> hexDigit d1 = hexDigit d2 -> d1 = d2.
Proof.
  unfold hexDigit. intros H1 H2.
  destruct (N.ltb_spec d1 10), (N.ltb_spec d2 10); lia.
Qed.

Lemma percent_app_inj o1 o2 (t1 t2 : jsstring) :
  o1 < 256 -> o2 < 256 -> percent o1 ++ t1 = percent o2 ++ t2 -> o1 = o2 /\ t1 = t2.
Proof.
  intros H1 H2 [= Hhi Hlo Ht].
  apply hexDigit_inj in Hhi; [|div_lia..].
  apply hexDigit_inj in Hlo; [|div_lia..].
  split; [div_lia | exact Ht].
Qed.

(** Escapes are uniquely readable: the first octet tells how many follow,
    and the octets tell the code point. *)
Lemma escape_app_inj cp1 cp2 (k1 k2 : jsstring) :
  cp1 < 0x200000 -> cp2 < 0x200000 ->
  escape cp1 ++ k1 = escape cp2 ++ k2 -> cp1 = cp2 /\ k1 = k2.
Proof.
  intros H1 H2. unfold escape. rewrite !utf8_arith by assumption.
  destruct (N.ltb_spec cp1 0x80), (N.ltb_spec cp2 0x80);
    [|destruct (N.ltb_spec cp2 0x800); [|destruct (N.ltb_spec cp2 0x10000)]
     |destruct (N.ltb_spec cp1 0x800); [|destruct (N.ltb_spec cp1 0x10000)]
     |destruct (N.ltb_spec cp1 0x800); [|destruct (N.ltb_spec cp1 0x10000)];
      (destruct (N.ltb_spec cp2 0x800); [|destruct (N.ltb_spec cp2 0x10000)])];
    cbn [map concat]; rewrite <- ?app_assoc; intros Heq;
    repeat match goal with
           | H : percent _ ++ _ = percent _ ++ _ |- _ =>
             apply percent_app_inj in H; [destruct H as [? H] | div_lia | div_lia]
           end;
    try (exfalso; div_lia);
    (split; [div_lia | cbn in Heq; congruence]).
Qed.

Lemma escape_head cp : exists t, escape cp = 37 :: t.
Proof.
  unfold escape, utf8.
  destruct (cp <? 0x80); [|destruct (cp <? 0x800); [|destruct (cp <? 0x10000)]];
    cbn; eauto.
Qed.

(** The first step of [encodeURIComponent], read backwards. *)
Lemma encodeURIComponent_cons c rest k :
  Forall (λ c, c < 0x10000) (c :: rest) ->
  encodeURIComponent (c :: rest) = Normal k ->
  (uriUnreserved c = true /\
   exists k', encodeURIComponent rest = Normal k' /\ k = c :: k') \/
  (exists cp rest' k',
     cp < 0x200000 /\ encodeURIComponent rest' = Normal k' /\ k = escape cp ++ k' /\
     Forall (λ c, c < 0x10000) rest' /\ (length rest' <= length rest)%nat /\
     ((cp = c /\ rest' = rest) \/
      (exists d, between 0xD800 0xDBFF c = true /\ between 0xDC00 0xDFFF d = true /\
                 rest = d :: rest' /\ cp = UTF16SurrogatePairToCodePoint c d))).
Proof.
  intros [Hc Hrest]%Forall_cons Henc. cbn beta in Hc.
  cbn [encodeURIComponent] in Henc.
  destruct (uriUnreserved c).
  { left. split; [reflexivity|]. apply prepend_Normal in Henc as (k' & Hk' & ->). eauto. }
  right. destruct (isLeadingSurrogate c) eqn:Hlead.
  - destruct rest as [|d rest']; [discriminate|].
    destruct (isTrailingSurrogate d) eqn:Htrail; [|discriminate].
    apply prepend_Normal in Henc as (k' & Hk' & ->).
    apply Forall_cons in Hrest as [_ Hrest'].
    exists (UTF16SurrogatePairToCodePoint c d), rest', k'.
    repeat split; try assumption; [|cbn; lia | right; by exists d].
    unfold UTF16SurrogatePairToCodePoint.
    apply between_spec in Hlead, Htrail. lia.
  - destruct (isTrailingSurrogate c); [discriminate|].
    apply prepend_Normal in Henc as (k' & Hk' & ->).
    exists c, rest, k'. repeat split; try assumption; [lia | lia | by left].
Qed.

Lemma encodeURIComponent_inj : forall n s1 s2 k,
  (length s1 <= n)%nat ->
  Forall (λ c, c < 0x10000) s1 -> Forall (λ c, c < 0x10000) s2 ->
  encodeURIComponent s1 = Normal k -> encodeURIComponent s2 = Normal k ->
  s1 = s2.
Proof.
  induction n as [|n IH]; intros s1 s2 k Hlen Hu1 Hu2 He1 He2.
  { destruct s1; [|cbn in Hlen; lia]. injection He1 as <-.
    destruct s2 as [|c2 r2]; [reflexivity|].
    destruct (encodeURIComponent_cons _ _ _ Hu2 He2)
      as [(_ & k' & _ & [=])|(cp & r' & k' & _ & _ & Hk & _)].
    destruct (escape_head cp) as [t Ht]. rewrite Ht in Hk. discriminate. }
  destruct s1 as [|c1 r1].
  { injection He1 as <-. destruct s2 as [|c2 r2]; [reflexivity|].
    destruct (encodeURIComponent_cons _ _ _ Hu2 He2)
      as [(_ & k' & _ & [=])|(cp & r' & k' & _ & _ & Hk & _)].
    destruct (escape_head cp) as [t Ht]. rewrite Ht in Hk. discriminate. }
  destruct s2 as [|c2 r2].
  { injection He2 as <-.
    destruct (encodeURIComponent_cons _ _ _ Hu1 He1)
      as [(_ & k' & _ & [=])|(cp & r' & k' & _ & _ & Hk & _)].
    destruct (escape_head cp) as [t Ht]. rewrite Ht in Hk. discriminate. }
  cbn in Hlen.
  pose proof Hu1 as [Hc1 Hr1]%Forall_cons. pose proof Hu2 as [Hc2 Hr2]%Forall_cons.
  cbn beta in Hc1, Hc2.
  destruct (encodeURIComponent_cons _ _ _ Hu1 He1)
    as [(Hun1 & k1 & Hk1 & ->)|(cp1 & r1' & k1 & Hcp1 & Hk1 & -> & Hr1' & Hl1 & Hs1)];
  destruct (encodeURIComponent_cons _ _ _ Hu2 He2)
    as [(Hun2 & k2 & Hk2 & Heq)|(cp2 & r2' & k2 & Hcp2 & Hk2 & Heq & Hr2' & Hl2 & Hs2)].
  - injection Heq as -> ->. f_equal.
    apply (IH r1 r2 k2); (lia || assumption).
  - destruct (escape_head cp2) as [t Ht]. rewrite Ht in Heq.
    injection Heq as -> _. vm_compute in Hun1. discriminate.
  - destruct (escape_head cp1) as [t Ht]. rewrite Ht in Heq.
    injection Heq as <- _. vm_compute in Hun2. discriminate.
  - apply escape_app_inj in Heq as [-> ->]; [|assumption..].
    assert (Hrest : r1' = r2') by (apply (IH r1' r2' k2); (lia || assumption)).
    subst r2'.
    destruct Hs1 as [[-> ->]|(d1 & Hlead1 & Htrail1 & -> & Hp1)],
             Hs2 as [[Hc -> ]|(d2 & Hlead2 & Htrail2 & -> & Hp2)].
    + by rewrite Hc.
    + exfalso. unfold UTF16SurrogatePairToCodePoint in Hp2.
      apply between_spec in Hlead2, Htrail2. lia.
    + exfalso. unfold UTF16SurrogatePairToCodePoint in Hp1.
      apply between_spec in Hlead1, Htrail1. lia.
    + unfold UTF16SurrogatePairToCodePoint in Hp1, Hp2.
      apply between_spec in Hlead1, Htrail1, Hlead2, Htrail2.
      assert (c1 = c2 /\ d1 = d2) as [-> ->] by lia. reflexivity.
Qed.

(** Two texts that are sent as the same search request are the same text:
    the keyword of the URL can be read back without loss, so no two
    queries are confused on the wire. *)
Theorem search_request_identifies_text (q1 q2 k1 k2 : jsstring) :
  Forall (λ c, c < 0x10000) q1 ->
  Forall (λ c, c < 0x10000) q2 ->
  encodeURIComponent q1 = Normal k1 ->
  encodeURIComponent q2 = Normal k2 ->
  searchRequest k1 = searchRequest k2 ->
  q1 = q2.
Proof.
  intros Hu1 Hu2 He1 He2 Hreq.
  apply (f_equal url) in Hreq. cbn [url searchRequest] in Hreq.
  apply app_inv_head, app_inv_tail in Hreq. subst k2.
  by apply (encodeURIComponent_inj (length q1) q1 q2 k1).
Qed.

Lemma search_request_identifies_text_witness :
  [0xE9; 32; 0xD83D; 0xDE00] = [0xE9; 32; 0xD83D; 0xDE00].
Proof.
  apply (search_request_identifies_text
           [0xE9; 32; 0xD83D; 0xDE00] [0xE9; 32; 0xD83D; 0xDE00]
           (lit "%C3%A9%20%F0%9F%98%80") (lit "%C3%A9%20%F0%9F%98%80")).
  - vm_compute. repeat constructor.
  - vm_compute. repeat constructor.
  - vm_compute. reflexivity.
  - vm_compute. reflexivity.
  - reflexivity.
Defined.

(** ** Rows and selection *)

Lemma successful_search_rows
  (w : World) (rid : nat) (status : N) (u : RobloxUser.t) (l : list RobloxUser.t) :
  rid ∈ searchPending w ->
  ok status = true ->
  query (app w) <> [] ->
  truthy (error (app w)) = false ->
  let w' := act (searchSettles rid (Fulfilled status (Json (SearchResponse.mk (Some (u :: l)))))) w in
  rows (app w') = map (renderRow (app w)) (u :: l) /\
  avatarUrls (app w') = avatarUrls (app w).
Proof.
  intros Hrid Hok Hq Herr w'. subst w'. cbn [act].
  rewrite bool_decide_eq_true_2 by assumption.
  cbn [searchUsers_resume]. rewrite Hok. cbn [negb].
  unfold rows, dropdownState. cbn. rewrite Herr.
  destruct (query (app w)); [done|]. split; reflexivity.
Qed.

(** A successful response with profiles, arriving under a non-empty text
    with no error shown, puts one row per profile on screen, in response
    order, at once: each row takes its avatar from the cache as it is at
    that moment (the placeholder for an id not yet fetched), without
    waiting for the avatar request that was just sent. *)
Theorem rows_after_successful_search
  (w : World) (rid : nat) (status : N) (u : RobloxUser.t) (l : list RobloxUser.t) :
  rid ∈ searchPending w ->
  ok status = true ->
  query (app w) <> [] ->
  truthy (error (app w)) = false ->
  let w' := act (searchSettles rid (Fulfilled status (Json (SearchResponse.mk (Some (u :: l)))))) w in
  rows (app w') = map (renderRow (app w)) (u :: l) /\
  map key (rows (app w')) = map RobloxUser.id (u :: l) /\
  (forall user, avatarUrls (app w) !! RobloxUser.id user = None ->
     src (renderRow (app w') user) = placeholder).
Proof.
  intros Hrid Hok Hq Herr w'.
  destruct (successful_search_rows w rid status u l Hrid Hok Hq Herr) as [Hrows Hcache].
  subst w'. rewrite Hrows. split; [reflexivity|]. split.
  - rewrite map_map. reflexivity.
  - intros user Hnone. cbn [renderRow src]. unfold avatarSrc.
    by rewrite Hcache, Hnone.
Qed.

Lemma rows_after_successful_search_witness :
  rows (app shown_ro) = map (renderRow (app typed_ro)) [roblox] /\
  map key (rows (app shown_ro)) = map RobloxUser.id [roblox] /\
  (forall user, avatarUrls (app typed_ro) !! RobloxUser.id user = None ->
     src (renderRow (app shown_ro) user) = placeholder).
Proof.
  apply (rows_after_successful_search typed_ro 0 200 roblox []).
  - apply (bool_decide_unpack _). vm_compute. reflexivity.
  - vm_compute. reflexivity.
  - vm_compute. discriminate.
  - vm_compute. reflexivity.
Defined.

(** The row of the specification's example: a verified badge and no line
    of previous names. *)
Example roblox_row :
  rows (app shown_ro)
  = [mkRow 1 placeholder (lit "Roblox's avatar") (lit "Roblox") (lit "@roblox") true None].
Proof. vm_compute. reflexivity. Qed.

(** The selection changes only when a row is clicked or the modal is
    closed: typing, searching (a timer firing), responses of either kind
    and clicks elsewhere leave the selected user, and so the open modal, as
    they are. *)
Theorem selection_changes_only_by_click_or_close (w : World) :
  (forall a, selectedUser (app (act a w)) <> selectedUser (app w) ->
     (exists i user, a = clickUser i /\ users (app w) !! i = Some user /\
                     selectedUser (app (act a w)) = Some user) \/
     (a = onOpenChange false /\ selectedUser (app (act a w)) = None)) /\
  (forall dt, selectedUser (app (elapse dt w)) = selectedUser (app w)).
Proof.
  split.
  - intros a Hch. destruct a as [v| | |i|open|rid r|rid r]; cbn [act] in *.
    + destruct (setState_frame (setQuery v) w) as [Happ _].
      rewrite Happ in Hch. by destruct Hch.
    + destruct (setState_frame (setShowDropdown true) w) as [Happ _].
      rewrite Happ in Hch. by destruct Hch.
    + destruct (setState_frame (setShowDropdown false) w) as [Happ _].
      rewrite Happ in Hch. by destruct Hch.
    + left. destruct (dropdownState (app w)); try by destruct Hch.
      destruct (users (app w) !! i) as [user|] eqn:Hrow; [|by destruct Hch].
      exists i, user. destruct (setState_frame (handleUserClick user) w) as [-> _].
      repeat split. exact Hrow.
    + right. destruct open; [by destruct Hch|].
      destruct (setState_frame (setSelectedUser None) w) as [-> _]. by split.
    + exfalso. apply Hch. case_bool_decide; [|reflexivity].
      by destruct (searchUsers_resume_frame r (removeSearch rid w)) as (_ & -> & _).
    + exfalso. apply Hch. case_bool_decide; [|reflexivity].
      rewrite fetchAvatarUrls_resume_fetched. by destruct (fetched r).
  - intros dt. unfold elapse. cbn.
    destruct (debounceTimeout w) as [[d q]|]; [|reflexivity].
    destruct (d <=? now w + dt); [|reflexivity].
    by destruct (searchUsers_frame q (setTimer None (setNow (now w + dt) w)))
      as (_ & _ & -> & _).
Qed.
